(** * Order management / order reporting (CQRS with an outbox): a shallow
      embedding of the Go sources and the properties of its write side, its
      publisher and its projection.

    Conventions of the embedding.
    - Go [string] is [string]; [OrderStatus] and [OrderID] are string types.
    - Go [int64] is [Z]; every [+] and [*] on it is followed by [wrap64],
      the two's complement reduction the Go language prescribes.
    - [time.Time] is [Z] (an instant); [time.Now()] and [uuid.New()] are
      inputs supplied by the caller or by the environment.
    - Go [error] is [option string]: [None] is [nil], [Some msg] carries the
      message; [fmt.Errorf("p: %w", err)] prefixes the message.
    - A method with a pointer receiver that returns [error] becomes a
      function returning the receiver after the call together with the
      error, so that "the receiver is left unchanged" is a statement. *)

From Stdlib Require Import ZArith String Ascii DecimalString List Lia Bool Sorted Permutation.
From stdpp Require Import gmap strings list.

Open Scope string_scope.
Open Scope Z_scope.
Open Scope list_scope.

Infix "=s?" := String.eqb (at level 70, no associativity).

(** ** Basic types *)

Definition error := option string.
Definition Time := Z.

Definition errors_New (msg : string) : error := Some msg.

(** [fmt.Errorf(prefix + ": %w", err)] *)
Definition wrap_error (prefix : string) (msg : string) : string :=
  String.append prefix (String.append ": " msg).

(** Two's complement reduction to the range of [int64]. *)
Definition wrap64 (z : Z) : Z := (z + 2 ^ 63) mod 2 ^ 64 - 2 ^ 63.

Definition int64_range (z : Z) : Prop := - 2 ^ 63 <= z < 2 ^ 63.

Definition add64 (a b : Z) : Z := wrap64 (a + b).
Definition mul64 (a b : Z) : Z := wrap64 (a * b).

(** ** shared/domain/valueobjects *)

Module valueobjects.

(** money.go *)
Record Money := mkMoney { Amount : Z; Currency : string }.

Definition NewMoney (amount : Z) (currency : string) : Money :=
  {| Amount := amount; Currency := currency |}.

Definition zeroMoney : Money := {| Amount := 0; Currency := "" |}.

Definition Money_Add (m other : Money) : Money * error :=
  if negb (Currency m =s? Currency other)
  then (zeroMoney, errors_New "cannot add different currencies")
  else ({| Amount := add64 (Amount m) (Amount other); Currency := Currency m |}, None).

Definition Money_Validate (m : Money) : error :=
  if Currency m =s? "" then errors_New "currency cannot be empty"
  else if negb (Nat.eqb (String.length (Currency m)) 3)
       then errors_New "currency must be 3 characters"
       else None.

(** address.go *)
Record Address := mkAddress
  { Street : string; City : string; State : string; Zip : string; Country : string }.

(** Go's [strings.TrimSpace(s) == ""]: [s] holds white space only. The
    white space recognised here is the ASCII one; the Unicode spaces that
    take several bytes in UTF-8 are not. *)
Definition isSpace (c : ascii) : bool :=
  match nat_of_ascii c with
  | 9%nat | 10%nat | 11%nat | 12%nat | 13%nat | 32%nat => true
  | _ => false
  end.

Definition blank (s : string) : bool := forallb isSpace (list_ascii_of_string s).

Definition Address_Validate (a : Address) : error :=
  if blank (Street a) then errors_New "street cannot be empty"
  else if blank (City a) then errors_New "city cannot be empty"
  else if blank (State a) then errors_New "state cannot be empty"
  else if blank (Zip a) then errors_New "zip cannot be empty"
  else if blank (Country a) then errors_New "country cannot be empty"
  else None.

(** order_status.go *)
Definition OrderStatus := string.

Definition OrderStatusDraft : OrderStatus := "draft".
Definition OrderStatusConfirmed : OrderStatus := "confirmed".
Definition OrderStatusShipped : OrderStatus := "shipped".
Definition OrderStatusDelivered : OrderStatus := "delivered".
Definition OrderStatusCancelled : OrderStatus := "cancelled".

Definition IsValid (s : OrderStatus) : bool :=
  (s =s? OrderStatusDraft) || (s =s? OrderStatusConfirmed) || (s =s? OrderStatusShipped)
  || (s =s? OrderStatusDelivered) || (s =s? OrderStatusCancelled).

Definition CanTransitionTo (s newStatus : OrderStatus) : bool :=
  if s =s? OrderStatusDraft then
    (newStatus =s? OrderStatusConfirmed) || (newStatus =s? OrderStatusCancelled)
  else if s =s? OrderStatusConfirmed then
    (newStatus =s? OrderStatusShipped) || (newStatus =s? OrderStatusCancelled)
  else if s =s? OrderStatusShipped then
    (newStatus =s? OrderStatusDelivered)
  else if (s =s? OrderStatusDelivered) || (s =s? OrderStatusCancelled) then
    false
  else false.

End valueobjects.

(** ** shared/domain/entities: the Order aggregate *)

Module entities.
Import valueobjects.

Definition OrderID := string.

Record OrderItem := mkOrderItem
  { ProductID : string; Quantity : Z; Price : Money }.

Record Order := mkOrder
  { ID : OrderID;
    CustomerID : string;
    Items : list OrderItem;
    Status : OrderStatus;
    TotalAmount : Money;
    ShippingAddress : Address;
    CreatedAt : Time;
    UpdatedAt : Time }.

Definition set_Items (o : Order) (items : list OrderItem) : Order :=
  mkOrder (ID o) (CustomerID o) items (Status o) (TotalAmount o)
          (ShippingAddress o) (CreatedAt o) (UpdatedAt o).
Definition set_Status (o : Order) (s : OrderStatus) : Order :=
  mkOrder (ID o) (CustomerID o) (Items o) s (TotalAmount o)
          (ShippingAddress o) (CreatedAt o) (UpdatedAt o).
Definition set_TotalAmount (o : Order) (m : Money) : Order :=
  mkOrder (ID o) (CustomerID o) (Items o) (Status o) m
          (ShippingAddress o) (CreatedAt o) (UpdatedAt o).
Definition set_UpdatedAt (o : Order) (t : Time) : Order :=
  mkOrder (ID o) (CustomerID o) (Items o) (Status o) (TotalAmount o)
          (ShippingAddress o) (CreatedAt o) t.

(** [NewOrder]: the identifier comes from [uuid.New()], the two
    timestamps from two calls of [time.Now()]. *)
Definition NewOrder (uuid : string) (now1 now2 : Time)
           (customerID : string) (shippingAddress : Address) : Order :=
  {| ID := uuid;
     CustomerID := customerID;
     Items := [];
     Status := OrderStatusDraft;
     TotalAmount := zeroMoney;
     ShippingAddress := shippingAddress;
     CreatedAt := now1;
     UpdatedAt := now2 |}.

(** The loop of [recalculateTotal]: [total += item.Price.Amount * int64(item.Quantity)]. *)
Fixpoint sum_items (total : Z) (items : list OrderItem) : Z :=
  match items with
  | [] => total
  | item :: rest =>
      let itemTotal := mul64 (Amount (Price item)) (Quantity item) in
      sum_items (add64 total itemTotal) rest
  end.

Definition recalculateTotal (o : Order) : Order :=
  set_TotalAmount o {| Amount := sum_items 0 (Items o); Currency := "USD" |}.

Definition AddItem (o : Order) (productID : string) (quantity : Z) (price : Money)
           (now : Time) : Order * error :=
  if negb (Status o =s? OrderStatusDraft) then
    (o, errors_New "cannot modify order that is not in draft status")
  else if quantity <=? 0 then
    (o, errors_New "quantity must be greater than zero")
  else
    let item := {| ProductID := productID; Quantity := quantity; Price := price |} in
    let o1 := set_Items o (Items o ++ [item]) in
    let o2 := recalculateTotal o1 in
    (set_UpdatedAt o2 now, None).

(** [for i, item := range items { if item.ProductID == productID { ... items[:i] ++ items[i+1:] } }]:
    the list without its first item of that product, if there is one. *)
Fixpoint remove_first (productID : string) (items : list OrderItem) : option (list OrderItem) :=
  match items with
  | [] => None
  | item :: rest =>
      if ProductID item =s? productID then Some rest
      else match remove_first productID rest with
           | Some rest' => Some (item :: rest')
           | None => None
           end
  end.

Definition RemoveItem (o : Order) (productID : string) (now : Time) : Order * error :=
  if negb (Status o =s? OrderStatusDraft) then
    (o, errors_New "cannot modify order that is not in draft status")
  else match remove_first productID (Items o) with
       | Some items' =>
           (set_UpdatedAt (recalculateTotal (set_Items o items')) now, None)
       | None => (o, errors_New "item not found")
       end.

Definition Confirm (o : Order) (now : Time) : Order * error :=
  if negb (Status o =s? OrderStatusDraft) then
    (o, errors_New "can only confirm draft orders")
  else if Nat.eqb (length (Items o)) 0 then
    (o, errors_New "cannot confirm order without items")
  else (set_UpdatedAt (set_Status o OrderStatusConfirmed) now, None).

Definition Cancel (o : Order) (now : Time) : Order * error :=
  if (Status o =s? OrderStatusShipped) || (Status o =s? OrderStatusDelivered) then
    (o, errors_New "cannot cancel shipped or delivered orders")
  else (set_UpdatedAt (set_Status o OrderStatusCancelled) now, None).

Definition Ship (o : Order) (now : Time) : Order * error :=
  if negb (Status o =s? OrderStatusConfirmed) then
    (o, errors_New "can only ship confirmed orders")
  else (set_UpdatedAt (set_Status o OrderStatusShipped) now, None).

Definition Deliver (o : Order) (now : Time) : Order * error :=
  if negb (Status o =s? OrderStatusShipped) then
    (o, errors_New "can only deliver shipped orders")
  else (set_UpdatedAt (set_Status o OrderStatusDelivered) now, None).

(** The exact (unbounded) sum of the item subtotals. *)
Definition exact_total (items : list OrderItem) : Z :=
  fold_right (fun item acc => Amount (Price item) * Quantity item + acc) 0 items.

End entities.

(** ** shared/domain/events *)

Module events.
Import valueobjects.

Record BaseDomainEvent := mkBase
  { EventType : string; AggregateID : string; OccurredAt : Time }.

Record OrderItemData := mkOrderItemData
  { ProductID : string; Quantity : Z; Price : Money }.

Record OrderCreatedEvent := mkOrderCreated
  { created_base : BaseDomainEvent;
    created_CustomerID : string;
    created_Items : list OrderItemData;
    created_TotalAmount : Money;
    created_ShippingAddress : Address }.

Record OrderConfirmedEvent := mkOrderConfirmed
  { confirmed_base : BaseDomainEvent; confirmed_CustomerID : string }.

Record OrderShippedEvent := mkOrderShipped
  { shipped_base : BaseDomainEvent; shipped_CustomerID : string }.

Record OrderDeliveredEvent := mkOrderDelivered
  { delivered_base : BaseDomainEvent; delivered_CustomerID : string }.

Record OrderCancelledEvent := mkOrderCancelled
  { cancelled_base : BaseDomainEvent;
    cancelled_CustomerID : string;
    cancelled_Reason : string }.

Record OrderItemAddedEvent := mkOrderItemAdded
  { added_base : BaseDomainEvent;
    added_ProductID : string;
    added_Quantity : Z;
    added_Price : Money }.

Record OrderItemRemovedEvent := mkOrderItemRemoved
  { removed_base : BaseDomainEvent; removed_ProductID : string }.

(** The values of the interface [DomainEvent]: the seven event structs of
    the package, and [OtherEvent] for any other implementation (the
    [default] branch of a type switch). *)
Inductive DomainEvent :=
| OrderCreated (e : OrderCreatedEvent)
| OrderConfirmed (e : OrderConfirmedEvent)
| OrderShipped (e : OrderShippedEvent)
| OrderDelivered (e : OrderDeliveredEvent)
| OrderCancelled (e : OrderCancelledEvent)
| OrderItemAdded (e : OrderItemAddedEvent)
| OrderItemRemoved (e : OrderItemRemovedEvent)
| OtherEvent (b : BaseDomainEvent).

Definition base (ev : DomainEvent) : BaseDomainEvent :=
  match ev with
  | OrderCreated e => created_base e
  | OrderConfirmed e => confirmed_base e
  | OrderShipped e => shipped_base e
  | OrderDelivered e => delivered_base e
  | OrderCancelled e => cancelled_base e
  | OrderItemAdded e => added_base e
  | OrderItemRemoved e => removed_base e
  | OtherEvent b => b
  end.

(** The three methods of the interface, promoted from [BaseDomainEvent]. *)
Definition Type_ (ev : DomainEvent) : string := EventType (base ev).
Definition AggregateID_ (ev : DomainEvent) : string := AggregateID (base ev).
Definition OccurredAt_ (ev : DomainEvent) : Time := OccurredAt (base ev).

Definition itemData (item : entities.OrderItem) : OrderItemData :=
  {| ProductID := entities.ProductID item;
     Quantity := entities.Quantity item;
     Price := entities.Price item |}.

Definition NewOrderCreatedEvent (order : entities.Order) (now : Time) : OrderCreatedEvent :=
  {| created_base := mkBase "OrderCreated" (entities.ID order) now;
     created_CustomerID := entities.CustomerID order;
     created_Items := map itemData (entities.Items order);
     created_TotalAmount := entities.TotalAmount order;
     created_ShippingAddress := entities.ShippingAddress order |}.

Definition NewOrderConfirmedEvent (order : entities.Order) (now : Time) : OrderConfirmedEvent :=
  {| confirmed_base := mkBase "OrderConfirmed" (entities.ID order) now;
     confirmed_CustomerID := entities.CustomerID order |}.

Definition NewOrderShippedEvent (order : entities.Order) (now : Time) : OrderShippedEvent :=
  {| shipped_base := mkBase "OrderShipped" (entities.ID order) now;
     shipped_CustomerID := entities.CustomerID order |}.

Definition NewOrderDeliveredEvent (order : entities.Order) (now : Time) : OrderDeliveredEvent :=
  {| delivered_base := mkBase "OrderDelivered" (entities.ID order) now;
     delivered_CustomerID := entities.CustomerID order |}.

Definition NewOrderCancelledEvent (order : entities.Order) (reason : string) (now : Time)
  : OrderCancelledEvent :=
  {| cancelled_base := mkBase "OrderCancelled" (entities.ID order) now;
     cancelled_CustomerID := entities.CustomerID order;
     cancelled_Reason := reason |}.

Definition NewOrderItemAddedEvent (order : entities.Order) (productID : string)
           (quantity : Z) (price : Money) (now : Time) : OrderItemAddedEvent :=
  {| added_base := mkBase "OrderItemAdded" (entities.ID order) now;
     added_ProductID := productID;
     added_Quantity := quantity;
     added_Price := price |}.

Definition NewOrderItemRemovedEvent (order : entities.Order) (productID : string)
           (now : Time) : OrderItemRemovedEvent :=
  {| removed_base := mkBase "OrderItemRemoved" (entities.ID order) now;
     removed_ProductID := productID |}.

End events.

(** ** order-reporting-service/internal/readmodels: the order read model

    The table [order_read_models] is a finite map from the primary key [id]
    to the other columns; it is taken to be reachable, so the only failure
    of [GetOrder] is the missing row. The JSON columns and the cached JSON
    document hold the value that was marshalled.

    Redis is outside the program and is not taken to keep what it was given.
    An entry is set with a life of one hour and is held with the time at
    which it expires; an expired entry is never served. During one call of
    the read model, or of a projection handler, Redis is described by a
    [Redis] record: the time on its clock and, for each command the call may
    send, whether Redis answers it. The commands are the [GET] of
    [GetOrder], the [SET] by which [GetOrder] fills the cache after reading
    the row, and the [SET] of [CreateOrder]. The read model treats a [GET]
    that is not answered as a miss and ignores the error of a [SET]. *)

Module readmodels.
Import valueobjects.

Record OrderItemDTO := mkOrderItemDTO
  { ProductID : string; Quantity : Z; Price : Money }.

Record OrderDTO := mkOrderDTO
  { ID : string;
    CustomerID : string;
    Status : string;
    TotalAmount : Money;
    ShippingAddress : Address;
    Items : list OrderItemDTO;
    CreatedAt : Time;
    UpdatedAt : Time }.

(** A row of [order_read_models], without its key. *)
Record ReadRow := mkReadRow
  { customer_id : string;
    status : string;
    total_amount : Z;
    shipping_address : Address;
    items : list OrderItemDTO;
    created_at : Time;
    updated_at : Time }.

Record Redis := mkRedis
  { clock : Time;
    get_answered : bool;
    fill_answered : bool;
    set_answered : bool }.

(** [1*time.Hour], in the unit of [time.Duration] (nanoseconds). *)
Definition Hour : Z := 3600000000000.

(** An entry of the cache: the order and the time at which it expires. *)
Record CacheEntry := mkCacheEntry { cached : OrderDTO; expires : Time }.

Record ReadStore := mkReadStore
  { rows : gmap string ReadRow;
    redis : gmap string CacheEntry }.

Definition cacheKey (orderID : string) : string := String.append "order:" orderID.

(** [redis.Get(ctx, key).Result()] followed by [json.Unmarshal]: the order
    under the key, when the command is answered and the entry has not
    expired. *)
Definition redis_Get (answered : bool) (now : Time) (c : gmap string CacheEntry)
           (key : string) : option OrderDTO :=
  if answered then
    match c !! key with
    | Some entry => if now <? expires entry then Some (cached entry) else None
    | None => None
    end
  else None.

(** [redis.Set(ctx, key, data, 1*time.Hour)], whose error is dropped: the
    entry is written, to expire in one hour, when the command is answered;
    otherwise the cache stays as it is. *)
Definition redis_Set (answered : bool) (now : Time) (c : gmap string CacheEntry)
           (key : string) (order : OrderDTO) : gmap string CacheEntry :=
  if answered then <[key := mkCacheEntry order (now + Hour)]> c else c.

Definition usdItem (it : OrderItemDTO) : OrderItemDTO :=
  {| ProductID := ProductID it; Quantity := Quantity it;
     Price := {| Amount := Amount (Price it); Currency := "USD" |} |}.

(** The order [GetOrder] builds from a row: the total and every item price
    are labelled USD. *)
Definition orderOfRow (orderID : string) (r : ReadRow) : OrderDTO :=
  {| ID := orderID;
     CustomerID := customer_id r;
     Status := status r;
     TotalAmount := {| Amount := total_amount r; Currency := "USD" |};
     ShippingAddress := shipping_address r;
     Items := map usdItem (items r);
     CreatedAt := created_at r;
     UpdatedAt := updated_at r |}.

Definition GetOrder (env : Redis) (st : ReadStore) (orderID : string)
  : ReadStore * option OrderDTO * error :=
  match redis_Get (get_answered env) (clock env) (redis st) (cacheKey orderID) with
  | Some order => (st, Some order, None)
  | None =>
      match rows st !! orderID with
      | None => (st, None, Some "order not found")
      | Some r =>
          let order := orderOfRow orderID r in
          (mkReadStore (rows st)
                       (redis_Set (fill_answered env) (clock env) (redis st)
                                  (cacheKey orderID) order),
           Some order, None)
      end
  end.

(** [INSERT ... ON CONFLICT (id) DO UPDATE SET ...]: every column but
    [created_at] is overwritten when the row exists. *)
Definition upsert (order : OrderDTO) (tbl : gmap string ReadRow) : gmap string ReadRow :=
  let created :=
    match tbl !! ID order with
    | Some old => created_at old
    | None => CreatedAt order
    end in
  <[ID order := {| customer_id := CustomerID order;
                   status := Status order;
                   total_amount := Amount (TotalAmount order);
                   shipping_address := ShippingAddress order;
                   items := Items order;
                   created_at := created;
                   updated_at := UpdatedAt order |}]> tbl.

Definition CreateOrder (env : Redis) (st : ReadStore) (order : OrderDTO)
  : ReadStore * error :=
  (mkReadStore (upsert order (rows st))
               (redis_Set (set_answered env) (clock env) (redis st)
                          (cacheKey (ID order)) order),
   None).

Definition UpdateOrder (env : Redis) (st : ReadStore) (order : OrderDTO)
  : ReadStore * error :=
  CreateOrder env st order.

Definition set_Status (o : OrderDTO) (s : string) (t : Time) : OrderDTO :=
  mkOrderDTO (ID o) (CustomerID o) s (TotalAmount o) (ShippingAddress o)
             (Items o) (CreatedAt o) t.

(** [order.Items = items; order.UpdatedAt = t; order.TotalAmount.Amount = total] *)
Definition set_Items (o : OrderDTO) (its : list OrderItemDTO) (t : Time) (total : Z)
  : OrderDTO :=
  mkOrderDTO (ID o) (CustomerID o) (Status o)
             {| Amount := total; Currency := Currency (TotalAmount o) |}
             (ShippingAddress o) its (CreatedAt o) t.

End readmodels.

(** ** order-reporting-service/internal/handlers: the projection handler *)

Module projection.
Import valueobjects events readmodels.

Definition itemDTO (item : OrderItemData) : OrderItemDTO :=
  {| readmodels.ProductID := events.ProductID item;
     readmodels.Quantity := events.Quantity item;
     readmodels.Price := events.Price item |}.

Definition handleOrderCreated (env : Redis) (st : ReadStore) (event : OrderCreatedEvent)
  : ReadStore * error :=
  let items := map itemDTO (created_Items event) in
  let order :=
    {| ID := AggregateID (created_base event);
       CustomerID := created_CustomerID event;
       Status := "draft";
       TotalAmount := created_TotalAmount event;
       ShippingAddress := created_ShippingAddress event;
       Items := items;
       CreatedAt := OccurredAt (created_base event);
       UpdatedAt := OccurredAt (created_base event) |} in
  CreateOrder env st order.

Definition handleOrderConfirmed (env : Redis) (st : ReadStore) (event : OrderConfirmedEvent) : ReadStore * error :=
  match GetOrder env st (AggregateID (confirmed_base event)) with
  | (st1, Some order, _) =>
      UpdateOrder env st1 (set_Status order "confirmed" (OccurredAt (confirmed_base event)))
  | (st1, None, err) => (st1, err)
  end.

Definition handleOrderShipped (env : Redis) (st : ReadStore) (event : OrderShippedEvent) : ReadStore * error :=
  match GetOrder env st (AggregateID (shipped_base event)) with
  | (st1, Some order, _) =>
      UpdateOrder env st1 (set_Status order "shipped" (OccurredAt (shipped_base event)))
  | (st1, None, err) => (st1, err)
  end.

Definition handleOrderDelivered (env : Redis) (st : ReadStore) (event : OrderDeliveredEvent) : ReadStore * error :=
  match GetOrder env st (AggregateID (delivered_base event)) with
  | (st1, Some order, _) =>
      UpdateOrder env st1 (set_Status order "delivered" (OccurredAt (delivered_base event)))
  | (st1, None, err) => (st1, err)
  end.

Definition handleOrderCancelled (env : Redis) (st : ReadStore) (event : OrderCancelledEvent) : ReadStore * error :=
  match GetOrder env st (AggregateID (cancelled_base event)) with
  | (st1, Some order, _) =>
      UpdateOrder env st1 (set_Status order "cancelled" (OccurredAt (cancelled_base event)))
  | (st1, None, err) => (st1, err)
  end.

(** [total += item.Price.Amount * int64(item.Quantity)] over the items. *)
Fixpoint sum_items (total : Z) (items : list OrderItemDTO) : Z :=
  match items with
  | [] => total
  | item :: rest =>
      sum_items (add64 total (mul64 (Amount (Price item)) (Quantity item))) rest
  end.

Definition handleOrderItemAdded (env : Redis) (st : ReadStore) (event : OrderItemAddedEvent)
  : ReadStore * error :=
  match GetOrder env st (AggregateID (added_base event)) with
  | (st1, Some order, _) =>
      let newItem := {| ProductID := added_ProductID event;
                        Quantity := added_Quantity event;
                        Price := added_Price event |} in
      let items := Items order ++ [newItem] in
      UpdateOrder env st1
        (set_Items order items (OccurredAt (added_base event)) (sum_items 0 items))
  | (st1, None, err) => (st1, err)
  end.

(** The removal loop: drop the first item of the product and stop. *)
Fixpoint remove_first (productID : string) (items : list OrderItemDTO) : list OrderItemDTO :=
  match items with
  | [] => []
  | item :: rest =>
      if ProductID item =s? productID then rest
      else item :: remove_first productID rest
  end.

Definition handleOrderItemRemoved (env : Redis) (st : ReadStore) (event : OrderItemRemovedEvent)
  : ReadStore * error :=
  match GetOrder env st (AggregateID (removed_base event)) with
  | (st1, Some order, _) =>
      let items := remove_first (removed_ProductID event) (Items order) in
      UpdateOrder env st1
        (set_Items order items (OccurredAt (removed_base event)) (sum_items 0 items))
  | (st1, None, err) => (st1, err)
  end.

Definition Handle (env : Redis) (st : ReadStore) (event : DomainEvent)
  : ReadStore * error :=
  match event with
  | OrderCreated e => handleOrderCreated env st e
  | OrderConfirmed e => handleOrderConfirmed env st e
  | OrderShipped e => handleOrderShipped env st e
  | OrderDelivered e => handleOrderDelivered env st e
  | OrderCancelled e => handleOrderCancelled env st e
  | OrderItemAdded e => handleOrderItemAdded env st e
  | OrderItemRemoved e => handleOrderItemRemoved env st e
  | OtherEvent _ => (st, None)
  end.

End projection.

(** * The write side

    ** The environment of the services

    The SQL database, the Kafka producer, the clock and the UUID generator
    are outside the program. Every interaction with one of them takes the
    next number of a counter; what the environment answers at that number is
    given by an [Oracle]: whether the SQL statement fails, which identifier
    [uuid.New()] returns, what [time.Now()] reads, how Kafka answers a
    [Produce]. The JSON codec is a [Codec] over an arbitrary type of byte
    strings. *)

Inductive result (A : Type) : Type :=
| Ok (a : A)
| Err (msg : string).
Arguments Ok {A} a.
Arguments Err {A} msg.

Inductive ProduceResult :=
| Acked                          (* delivery report without error *)
| ProduceError (msg : string)    (* [Produce] itself returned an error *)
| DeliveryError (msg : string)   (* delivery report with an error *)
| ContextDone (msg : string).    (* the context ended before the report *)

Record Oracle := mkOracle
  { faults : nat -> bool;
    uuid_at : nat -> string;
    now_at : nat -> Time;
    kafka_at : nat -> ProduceResult }.

(** [json.Marshal] of an event (it cannot fail on the event structs) and
    [json.Unmarshal] into each of the event structs. *)
Record Codec (Bytes : Type) := mkCodec
  { json_Marshal : events.DomainEvent -> Bytes;
    unmarshal_created : Bytes -> option events.OrderCreatedEvent;
    unmarshal_confirmed : Bytes -> option events.OrderConfirmedEvent;
    unmarshal_shipped : Bytes -> option events.OrderShippedEvent;
    unmarshal_delivered : Bytes -> option events.OrderDeliveredEvent;
    unmarshal_cancelled : Bytes -> option events.OrderCancelledEvent;
    unmarshal_added : Bytes -> option events.OrderItemAddedEvent;
    unmarshal_removed : Bytes -> option events.OrderItemRemovedEvent }.
Arguments json_Marshal {Bytes} _ _.
Arguments unmarshal_created {Bytes} _ _.
Arguments unmarshal_confirmed {Bytes} _ _.
Arguments unmarshal_shipped {Bytes} _ _.
Arguments unmarshal_delivered {Bytes} _ _.
Arguments unmarshal_cancelled {Bytes} _ _.
Arguments unmarshal_added {Bytes} _ _.
Arguments unmarshal_removed {Bytes} _ _.

(** ** shared/infrastructure/eventbus: the Kafka message of [Publish]

    [Message] has the fields of [kafka.Message] that matter to a producer;
    a field the composite literal of [Publish] does not mention keeps its
    zero value, which for [Key] is the nil slice ([None]). *)

Module eventbus.
Import events.

Record TopicPartition := mkTopicPartition { Topic : string; Partition : Z }.

Record Message (Bytes : Type) := mkMessage
  { TopicPartition_ : TopicPartition;
    Value : Bytes;
    Key : option string;
    Headers : list (string * string) }.
Arguments mkMessage {Bytes} _ _ _ _.
Arguments TopicPartition_ {Bytes} _.
Arguments Value {Bytes} _.
Arguments Key {Bytes} _.
Arguments Headers {Bytes} _.

(** [kafka.PartitionAny]: let the partitioner choose. *)
Definition PartitionAny : Z := -1.

(** The message [Publish] hands to [Produce]. *)
Definition Publish_message {Bytes} (codec : Codec Bytes) (event : DomainEvent)
  : Message Bytes :=
  {| TopicPartition_ := {| Topic := "orders"; Partition := PartitionAny |};
     Value := json_Marshal codec event;
     Key := None;
     Headers := [("event-type", Type_ event); ("aggregate-id", AggregateID_ event)] |}.

(** [Publish] against a topic that is the list of the messages acknowledged
    so far; the answer of Kafka is an input. What becomes of a message whose
    delivery report was not awaited ([ContextDone]) is left out: the topic
    lists acknowledged messages only. *)
Definition Publish {Bytes} (codec : Codec Bytes) (answer : ProduceResult)
           (topic : list (Message Bytes)) (event : DomainEvent)
  : list (Message Bytes) * error :=
  let message := Publish_message codec event in
  match answer with
  | ProduceError msg => (topic, Some (wrap_error "failed to produce message" msg))
  | Acked => (topic ++ [message], None)
  | DeliveryError msg => (topic, Some (String.append "delivery failed: " msg))
  | ContextDone msg => (topic, Some msg)
  end.

End eventbus.

(** ** order-management-service/internal/repositories: tables and statements *)

Module repositories.
Import valueobjects events.

Set Implicit Arguments.

(** A row of [orders], without its key. *)
Record OrderRow := mkOrderRow
  { customer_id : string;
    status : string;
    total_amount : Z;
    shipping_address : Address;
    created_at : Time;
    updated_at : Time }.

(** A row of [order_items]; the rows are kept in insertion order. *)
Record OrderItemRow := mkOrderItemRow
  { order_id : string;
    product_id : string;
    quantity : Z;
    price_amount : Z;
    price_currency : string }.

(** A row of [events]. *)
Record EventRow (Bytes : Type) := mkEventRow
  { aggregate_id : string;
    event_type : string;
    event_data : Bytes;
    version : Z;
    occurred_at : Time }.

(** A row of [outbox_events]. *)
Record OutboxEvent (Bytes : Type) := mkOutboxEvent
  { ID : string;
    EventType : string;
    EventData : Bytes;
    CreatedAt : Time;
    Processed : bool }.

Record DB (Bytes : Type) := mkDB
  { orders : gmap string OrderRow;
    order_items : list OrderItemRow;
    events_tbl : list (EventRow Bytes);
    outbox_events : list (OutboxEvent Bytes) }.

(** The database, the topic of the bus and the interaction counter. *)
Record World (Bytes : Type) := mkWorld
  { db : DB Bytes;
    bus : list (eventbus.Message Bytes);
    tick : nat }.

Unset Implicit Arguments.

Section Statements.
Context {Bytes : Type} (codec : Codec Bytes) (env : Oracle).

Definition M (A : Type) : Type := World Bytes -> World Bytes * result A.

Definition ret {A} (a : A) : M A := fun w => (w, Ok a).

Definition fail {A} (msg : string) : M A := fun w => (w, Err msg).

Definition bind {A B} (m : M A) (k : A -> M B) : M B :=
  fun w => match m w with
           | (w1, Ok a) => k a w1
           | (w1, Err msg) => (w1, Err msg)
           end.

(** [if err != nil { return fmt.Errorf(prefix + ": %w", err) }] *)
Definition wrapping {A} (prefix : string) (m : M A) : M A :=
  fun w => match m w with
           | (w1, Ok a) => (w1, Ok a)
           | (w1, Err msg) => (w1, Err (wrap_error prefix msg))
           end.

Definition bump (w : World Bytes) : World Bytes :=
  mkWorld (db w) (bus w) (S (tick w)).

Definition set_db (w : World Bytes) (d : DB Bytes) : World Bytes :=
  mkWorld d (bus w) (tick w).

Definition time_Now : M Time := fun w => (bump w, Ok (now_at env (tick w))).

Definition uuid_New : M string := fun w => (bump w, Ok (uuid_at env (tick w))).

(** The error of a statement the environment makes fail. *)
Definition driver_error : string := "driver: bad connection".

(** [db.ExecContext]: one statement, committed on its own. The
    statement itself may be refused by a constraint. *)
Definition ExecContext {A} (stmt : DB Bytes -> result (DB Bytes * A)) : M A :=
  fun w =>
    if faults env (tick w) then (bump w, Err driver_error)
    else match stmt (db w) with
         | Ok (d, a) => (bump (set_db w d), Ok a)
         | Err msg => (bump w, Err msg)
         end.

(** [db.QueryContext] / [db.QueryRowContext] with the rows read. *)
Definition QueryContext {A} (q : DB Bytes -> A) : M A :=
  fun w =>
    if faults env (tick w) then (bump w, Err driver_error)
    else (bump w, Ok (q (db w))).

(** [BeginTx] ... [defer tx.Rollback()] ... [return tx.Commit()]: the
    statements of [body] take effect together at the commit, or not at
    all. *)
Definition in_tx (body : M unit) : M unit :=
  fun w =>
    if faults env (tick w)
    then (bump w, Err (wrap_error "failed to begin transaction" driver_error))
    else match body (bump w) with
         | (w1, Ok _) =>
             if faults env (tick w1)
             then (bump (set_db w1 (db w)), Err driver_error)
             else (bump w1, Ok tt)
         | (w1, Err msg) => (set_db w1 (db w), Err msg)
         end.

(** [for _, x := range xs { if err := f(x); err != nil { return err } }] *)
Fixpoint for_each {A} (f : A -> M unit) (xs : list A) : M unit :=
  match xs with
  | [] => ret tt
  | x :: rest => bind (f x) (fun _ => for_each f rest)
  end.

End Statements.

Notation "'let*' x ':=' m 'in' k" := (bind m (fun x => k))
  (at level 10, x name, m at level 100, k at level 200).
Notation "m1 ';;' m2" := (bind m1 (fun _ => m2))
  (at level 100, m2 at level 200, right associativity).

(** The refusal of an [INSERT] that would repeat a unique key. *)
Definition duplicate_key : string :=
  "pq: duplicate key value violates unique constraint".

(** *** order_repository.go *)

Section OrderRepository.
Context {Bytes : Type} (env : Oracle).

Definition upsert_order (order : entities.Order) (d : DB Bytes)
  : result (DB Bytes * unit) :=
  let created :=
    match orders d !! entities.ID order with
    | Some old => created_at old
    | None => entities.CreatedAt order
    end in
  let row := {| customer_id := entities.CustomerID order;
                status := entities.Status order;
                total_amount := Amount (entities.TotalAmount order);
                shipping_address := entities.ShippingAddress order;
                created_at := created;
                updated_at := entities.UpdatedAt order |} in
  Ok (mkDB (<[entities.ID order := row]> (orders d))
           (order_items d) (events_tbl d) (outbox_events d), tt).

Definition delete_order_items (orderID : string) (d : DB Bytes)
  : result (DB Bytes * unit) :=
  Ok (mkDB (orders d)
           (List.filter (fun r => negb (order_id r =s? orderID)) (order_items d))
           (events_tbl d) (outbox_events d), tt).

Definition insert_order_item (orderID : string) (item : entities.OrderItem)
           (d : DB Bytes) : result (DB Bytes * unit) :=
  let row := {| order_id := orderID;
                product_id := entities.ProductID item;
                quantity := entities.Quantity item;
                price_amount := Amount (entities.Price item);
                price_currency := Currency (entities.Price item) |} in
  Ok (mkDB (orders d) (order_items d ++ [row]) (events_tbl d) (outbox_events d), tt).

Definition saveOrderItems (order : entities.Order) : M (Bytes:=Bytes) unit :=
  wrapping "failed to delete existing order items"
    (ExecContext env (delete_order_items (entities.ID order))) ;;
  for_each
    (fun item => wrapping "failed to save order item"
                   (ExecContext env (insert_order_item (entities.ID order) item)))
    (entities.Items order).

Definition Save (order : entities.Order) : M (Bytes:=Bytes) unit :=
  wrapping "failed to save order" (ExecContext env (upsert_order order)) ;;
  saveOrderItems order.

Definition Update (order : entities.Order) : M (Bytes:=Bytes) unit := Save order.

(** [ORDER BY product_id]: a stable insertion sort on the product. *)
Fixpoint insert_by_product (r : OrderItemRow) (l : list OrderItemRow) : list OrderItemRow :=
  match l with
  | [] => [r]
  | x :: rest =>
      if String.leb (product_id x) (product_id r)
      then x :: insert_by_product r rest
      else r :: l
  end.

Definition sort_by_product (l : list OrderItemRow) : list OrderItemRow :=
  fold_left (fun acc r => insert_by_product r acc) l [].

Definition itemOfRow (r : OrderItemRow) : entities.OrderItem :=
  {| entities.ProductID := product_id r;
     entities.Quantity := quantity r;
     entities.Price := {| Amount := price_amount r; Currency := price_currency r |} |}.

Definition findOrderItems (orderID : string) : M (Bytes:=Bytes) (list entities.OrderItem) :=
  wrapping "failed to query order items"
    (QueryContext env (fun d =>
       map itemOfRow
           (sort_by_product
              (List.filter (fun r => order_id r =s? orderID) (order_items d))))).

Definition FindByID (id : string) : M (Bytes:=Bytes) entities.Order :=
  let* found := wrapping "failed to find order"
                  (QueryContext env (fun d => orders d !! id)) in
  match found with
  | None => fail "order not found"
  | Some row =>
      let* items := wrapping "failed to load order items" (findOrderItems id) in
      ret {| entities.ID := id;
             entities.CustomerID := customer_id row;
             entities.Items := items;
             entities.Status := status row;
             entities.TotalAmount := {| Amount := total_amount row; Currency := "USD" |};
             entities.ShippingAddress := shipping_address row;
             entities.CreatedAt := created_at row;
             entities.UpdatedAt := updated_at row |}
  end.

End OrderRepository.

(** *** event_store.go *)

Section EventStore.
Context {Bytes : Type} (codec : Codec Bytes) (env : Oracle).

(** [UNIQUE(aggregate_id, version)] *)
Definition insert_event (row : EventRow Bytes) (d : DB Bytes)
  : result (DB Bytes * unit) :=
  if existsb (fun r => (aggregate_id r =s? aggregate_id row)
                       && (version r =? version row)) (events_tbl d)
  then Err duplicate_key
  else Ok (mkDB (orders d) (order_items d) (events_tbl d ++ [row])
                (outbox_events d), tt).

(** The loop of [SaveEvents], from index [i] on. *)
Fixpoint save_from (aggregateID : string) (expectedVersion : Z) (i : Z)
         (domainEvents : list DomainEvent) : M (Bytes:=Bytes) unit :=
  match domainEvents with
  | [] => ret tt
  | event :: rest =>
      let version := add64 (add64 expectedVersion i) 1 in
      wrapping "failed to save event"
        (ExecContext env
           (insert_event
              {| aggregate_id := aggregateID;
                 event_type := Type_ event;
                 event_data := json_Marshal codec event;
                 version := version;
                 occurred_at := OccurredAt_ event |})) ;;
      save_from aggregateID expectedVersion (i + 1) rest
  end.

Definition SaveEvents (aggregateID : string) (domainEvents : list DomainEvent)
           (expectedVersion : Z) : M (Bytes:=Bytes) unit :=
  in_tx env (save_from aggregateID expectedVersion 0 domainEvents).

End EventStore.

(** *** outbox_repository.go *)

Section OutboxRepository.
Context {Bytes : Type} (codec : Codec Bytes) (env : Oracle).

(** [id] is the primary key of [outbox_events]. *)
Definition insert_outbox (row : OutboxEvent Bytes) (d : DB Bytes)
  : result (DB Bytes * unit) :=
  if existsb (fun r => ID r =s? ID row) (outbox_events d)
  then Err duplicate_key
  else Ok (mkDB (orders d) (order_items d) (events_tbl d)
                (outbox_events d ++ [row]), tt).

Definition SaveEvent (event : DomainEvent) : M (Bytes:=Bytes) unit :=
  let eventData := json_Marshal codec event in
  let* id := uuid_New env in
  let* now := time_Now env in
  wrapping "failed to save event to outbox"
    (ExecContext env
       (insert_outbox
          {| ID := id; EventType := Type_ event; EventData := eventData;
             CreatedAt := now; Processed := false |})).

(** [SaveEventWithTx]: the same insert, sent through the transaction the
    caller holds ([tx.ExecContext]); it takes effect with the commit of the
    enclosing [in_tx]. No caller of it exists in the services. *)
Definition SaveEventWithTx (event : DomainEvent) : M (Bytes:=Bytes) unit :=
  let eventData := json_Marshal codec event in
  let* id := uuid_New env in
  let* now := time_Now env in
  wrapping "failed to save event to outbox"
    (ExecContext env
       (insert_outbox
          {| ID := id; EventType := Type_ event; EventData := eventData;
             CreatedAt := now; Processed := false |})).

(** [ORDER BY created_at ASC]: a stable insertion sort on the creation time. *)
Fixpoint insert_by_created (r : OutboxEvent Bytes) (l : list (OutboxEvent Bytes))
  : list (OutboxEvent Bytes) :=
  match l with
  | [] => [r]
  | x :: rest =>
      if CreatedAt r <=? CreatedAt x
      then r :: l
      else x :: insert_by_created r rest
  end.

Fixpoint sort_by_created (l : list (OutboxEvent Bytes)) : list (OutboxEvent Bytes) :=
  match l with
  | [] => []
  | r :: rest => insert_by_created r (sort_by_created rest)
  end.

(** [WHERE processed = false ORDER BY created_at ASC LIMIT 100] *)
Definition select_unprocessed (tbl : list (OutboxEvent Bytes)) : list (OutboxEvent Bytes) :=
  firstn 100 (sort_by_created (List.filter (fun r => negb (Processed r)) tbl)).

Definition GetUnprocessedEvents : M (Bytes:=Bytes) (list (OutboxEvent Bytes)) :=
  wrapping "failed to query unprocessed events"
    (QueryContext env (fun d => select_unprocessed (outbox_events d))).

Definition set_processed (r : OutboxEvent Bytes) : OutboxEvent Bytes :=
  mkOutboxEvent (ID r) (EventType r) (EventData r) (CreatedAt r) true.

(** [UPDATE outbox_events SET processed = true WHERE id = $1], with the
    number of rows it touched. *)
Definition mark_rows (eventID : string) (tbl : list (OutboxEvent Bytes))
  : list (OutboxEvent Bytes) :=
  map (fun r => if ID r =s? eventID then set_processed r else r) tbl.

Definition update_processed (eventID : string) (d : DB Bytes)
  : result (DB Bytes * nat) :=
  Ok (mkDB (orders d) (order_items d) (events_tbl d)
           (mark_rows eventID (outbox_events d)),
      length (List.filter (fun r => ID r =s? eventID) (outbox_events d))).

Definition MarkAsProcessed (eventID : string) : M (Bytes:=Bytes) unit :=
  let* rowsAffected := wrapping "failed to mark event as processed"
                         (ExecContext env (update_processed eventID)) in
  if Nat.eqb rowsAffected 0
  then fail (String.append "event not found: " eventID)
  else ret tt.

End OutboxRepository.

End repositories.

(** ** order-management-service/internal/handlers: commands, the command
       service and the event publisher *)

Module handlers.
Import valueobjects events repositories.

(** *** commands.go *)

Record OrderItemCommand := mkOrderItemCommand
  { ProductID : string; Quantity : Z; Price : Money }.

Record CreateOrderCommand := mkCreateOrderCommand
  { CustomerID : string;
    Items : list OrderItemCommand;
    ShippingAddress : Address }.

Definition OrderItemCommand_Validate (i : OrderItemCommand) : error :=
  if ProductID i =s? "" then errors_New "product_id is required"
  else if Quantity i <=? 0 then errors_New "quantity must be greater than zero"
  else match Money_Validate (Price i) with
       | Some msg => Some (wrap_error "invalid price" msg)
       | None => None
       end.

(** [%d] of an index *)
Definition decimal (n : nat) : string := NilZero.string_of_uint (Nat.to_uint n).

Fixpoint validate_items (i : nat) (items : list OrderItemCommand) : error :=
  match items with
  | [] => None
  | item :: rest =>
      match OrderItemCommand_Validate item with
      | Some msg =>
          Some (wrap_error (String.append "invalid item at index " (decimal i)) msg)
      | None => validate_items (S i) rest
      end
  end.

Definition CreateOrderCommand_Validate (c : CreateOrderCommand) : error :=
  if CustomerID c =s? "" then errors_New "customer_id is required"
  else if Nat.eqb (length (Items c)) 0 then errors_New "at least one item is required"
  else match Address_Validate (ShippingAddress c) with
       | Some msg => Some (wrap_error "invalid shipping address" msg)
       | None => validate_items 0 (Items c)
       end.

(** *** command_service.go *)

Section CommandService.
Context {Bytes : Type} (codec : Codec Bytes) (env : Oracle).

(** A method of the aggregate: it reads the clock when, and only when,
    it succeeds; its error is returned as it is. *)
Definition calling (method : Time -> entities.Order * error)
  : M (Bytes:=Bytes) entities.Order :=
  fun w => match method (now_at env (tick w)) with
           | (o, None) => (bump w, Ok o)
           | (_, Some msg) => (w, Err msg)
           end.

Definition newOrder (customerID : string) (shippingAddress : Address)
  : M (Bytes:=Bytes) entities.Order :=
  let* id := uuid_New env in
  let* t1 := time_Now env in
  let* t2 := time_Now env in
  ret (entities.NewOrder id t1 t2 customerID shippingAddress).

Fixpoint addItems (order : entities.Order) (items : list OrderItemCommand)
  : M (Bytes:=Bytes) entities.Order :=
  match items with
  | [] => ret order
  | item :: rest =>
      let* order1 :=
        wrapping "failed to add item"
          (calling (entities.AddItem order (ProductID item) (Quantity item) (Price item))) in
      addItems order1 rest
  end.

Definition CreateOrder (cmd : CreateOrderCommand) : M (Bytes:=Bytes) entities.Order :=
  match CreateOrderCommand_Validate cmd with
  | Some msg => fail (wrap_error "invalid command" msg)
  | None =>
      let* order0 := newOrder (CustomerID cmd) (ShippingAddress cmd) in
      let* order := addItems order0 (Items cmd) in
      wrapping "failed to save order" (Save env order) ;;
      let* now := time_Now env in
      let event := OrderCreated (NewOrderCreatedEvent order now) in
      wrapping "failed to save event"
        (SaveEvents codec env (entities.ID order) [event] 0) ;;
      wrapping "failed to save event to outbox" (SaveEvent codec env event) ;;
      ret order
  end.

Definition ConfirmOrder (orderID : string) : M (Bytes:=Bytes) unit :=
  let* order0 := wrapping "failed to find order" (FindByID env orderID) in
  let* order := wrapping "failed to confirm order" (calling (entities.Confirm order0)) in
  wrapping "failed to update order" (Update env order) ;;
  let* now := time_Now env in
  let event := OrderConfirmed (NewOrderConfirmedEvent order now) in
  wrapping "failed to save event to outbox" (SaveEvent codec env event).

Definition CancelOrder (orderID : string) (reason : string) : M (Bytes:=Bytes) unit :=
  let* order0 := wrapping "failed to find order" (FindByID env orderID) in
  let* order := wrapping "failed to cancel order" (calling (entities.Cancel order0)) in
  wrapping "failed to update order" (Update env order) ;;
  let* now := time_Now env in
  let event := OrderCancelled (NewOrderCancelledEvent order reason now) in
  wrapping "failed to save event to outbox" (SaveEvent codec env event).

Definition AddOrderItem (orderID : string) (productID : string) (quantity : Z)
           (price : Money) : M (Bytes:=Bytes) unit :=
  let* order0 := wrapping "failed to find order" (FindByID env orderID) in
  let* order := wrapping "failed to add item"
                  (calling (entities.AddItem order0 productID quantity price)) in
  wrapping "failed to update order" (Update env order) ;;
  let* now := time_Now env in
  let event := OrderItemAdded (NewOrderItemAddedEvent order productID quantity price now) in
  wrapping "failed to save event to outbox" (SaveEvent codec env event).

Definition RemoveOrderItem (orderID : string) (productID : string)
  : M (Bytes:=Bytes) unit :=
  let* order0 := wrapping "failed to find order" (FindByID env orderID) in
  let* order := wrapping "failed to remove item"
                  (calling (entities.RemoveItem order0 productID)) in
  wrapping "failed to update order" (Update env order) ;;
  let* now := time_Now env in
  let event := OrderItemRemoved (NewOrderItemRemovedEvent order productID now) in
  wrapping "failed to save event to outbox" (SaveEvent codec env event).

End CommandService.

(** *** event_publisher.go *)

Section EventPublisher.
Context {Bytes : Type} (codec : Codec Bytes) (env : Oracle).

Definition unmarshalled {A} (inj : A -> DomainEvent) (r : option A) : result DomainEvent :=
  match r with
  | Some e => Ok (inj e)
  | None => Err "json: cannot unmarshal"
  end.

Definition parseEvent (eventType : string) (eventData : Bytes) : result DomainEvent :=
  if eventType =s? "OrderCreated" then
    unmarshalled OrderCreated (unmarshal_created codec eventData)
  else if eventType =s? "OrderConfirmed" then
    unmarshalled OrderConfirmed (unmarshal_confirmed codec eventData)
  else if eventType =s? "OrderShipped" then
    unmarshalled OrderShipped (unmarshal_shipped codec eventData)
  else if eventType =s? "OrderDelivered" then
    unmarshalled OrderDelivered (unmarshal_delivered codec eventData)
  else if eventType =s? "OrderCancelled" then
    unmarshalled OrderCancelled (unmarshal_cancelled codec eventData)
  else if eventType =s? "OrderItemAdded" then
    unmarshalled OrderItemAdded (unmarshal_added codec eventData)
  else if eventType =s? "OrderItemRemoved" then
    unmarshalled OrderItemRemoved (unmarshal_removed codec eventData)
  else Err (String.append "unknown event type: " eventType).

(** [EventBus.Publish] on the Kafka bus of the world. *)
Definition EventBus_Publish (event : DomainEvent) : M (Bytes:=Bytes) unit :=
  fun w =>
    let (topic, err) := eventbus.Publish codec (kafka_at env (tick w)) (bus w) event in
    (mkWorld (db w) topic (S (tick w)),
     match err with
     | None => Ok tt
     | Some msg => Err msg
     end).

Definition processEvent (outboxEvent : OutboxEvent Bytes) : M (Bytes:=Bytes) unit :=
  match parseEvent (EventType outboxEvent) (EventData outboxEvent) with
  | Err msg => fail msg
  | Ok event => EventBus_Publish event
  end.

(** What one iteration of the loop of [processBatch] did with its entry:
    the error of [processEvent], or the delivery followed by the result
    of [MarkAsProcessed], an error of which is only logged. *)
Inductive Attempt :=
| NotDelivered (msg : string)
| Delivered (markError : error).

(** The loop of [processBatch] over the fetched entries; next to the
    world it returns, per entry and in order, what happened (in the
    source, what the log lines tell). *)
Fixpoint drain (outboxEvents : list (OutboxEvent Bytes)) (w : World Bytes)
  : World Bytes * list (string * Attempt) :=
  match outboxEvents with
  | [] => (w, [])
  | outboxEvent :: rest =>
      match processEvent outboxEvent w with
      | (w1, Err msg) =>
          let (w2, trace) := drain rest w1 in
          (w2, (ID outboxEvent, NotDelivered msg) :: trace)
      | (w1, Ok _) =>
          let (w2, marked) := MarkAsProcessed env (ID outboxEvent) w1 in
          let markError := match marked with Ok _ => None | Err msg => Some msg end in
          let (w3, trace) := drain rest w2 in
          (w3, (ID outboxEvent, Delivered markError) :: trace)
      end
  end.

(** [processBatch], with the fetched batch and the trace of the loop. *)
Definition processBatch_traced
  : M (Bytes:=Bytes) (list (OutboxEvent Bytes) * list (string * Attempt)) :=
  let* outboxEvents := GetUnprocessedEvents env in
  if Nat.eqb (length outboxEvents) 0 then ret ([], [])
  else fun w => let (w1, trace) := drain outboxEvents w in
                (w1, Ok (outboxEvents, trace)).

Definition processBatch : M (Bytes:=Bytes) unit :=
  let* _ := processBatch_traced in ret tt.

End EventPublisher.

End handlers.

(** * Properties of the domain layer *)

Section Int64.

Lemma wrap64_range z : int64_range (wrap64 z).
Proof.
  unfold int64_range, wrap64.
  pose proof (Z.mod_pos_bound (z + 2 ^ 63) (2 ^ 64) ltac:(lia)). lia.
Qed.

Lemma wrap64_id z : int64_range z -> wrap64 z = z.
Proof.
  unfold int64_range, wrap64. intros Hz.
  rewrite Z.mod_small; lia.
Qed.

Lemma wrap64_congr x y : x mod 2 ^ 64 = y mod 2 ^ 64 -> wrap64 x = wrap64 y.
Proof.
  unfold wrap64. intros E.
  rewrite (Z.add_mod x), (Z.add_mod y), E by lia. reflexivity.
Qed.

Lemma wrap64_mod z : wrap64 z mod 2 ^ 64 = z mod 2 ^ 64.
Proof.
  unfold wrap64.
  rewrite Zminus_mod, Z.mod_mod by lia.
  rewrite <- Zminus_mod. f_equal. lia.
Qed.

Lemma wrap64_add_l a b : wrap64 (wrap64 a + b) = wrap64 (a + b).
Proof.
  apply wrap64_congr.
  rewrite Z.add_mod, wrap64_mod, <- Z.add_mod by lia. reflexivity.
Qed.

Lemma wrap64_add_r a b : wrap64 (a + wrap64 b) = wrap64 (a + b).
Proof.
  apply wrap64_congr.
  rewrite Z.add_mod, wrap64_mod, <- Z.add_mod by lia. reflexivity.
Qed.

End Int64.

Module entities_facts.
Import valueobjects entities.

(** The loop of [recalculateTotal] computes the exact sum reduced to [int64]. *)
Lemma sum_items_wrap a items :
  sum_items (wrap64 a) items = wrap64 (a + exact_total items).
Proof.
  revert a. induction items as [|item rest IH]; intros a; simpl.
  - f_equal. lia.
  - unfold mul64, add64. rewrite wrap64_add_l, wrap64_add_r, IH. f_equal. lia.
Qed.

Lemma sum_items_0 items : sum_items 0 items = wrap64 (exact_total items).
Proof. change 0 with (wrap64 0) at 1. apply sum_items_wrap. Qed.

Lemma eqb_status_refl (s : string) : (s =s? s) = true.
Proof. apply String.eqb_refl. Qed.

Lemma AddItem_ok_inv o p q price now o' :
  AddItem o p q price now = (o', None) ->
  Status o = OrderStatusDraft /\ 0 < q /\
  o' = set_UpdatedAt (recalculateTotal
         (set_Items o (Items o ++ [mkOrderItem p q price]))) now.
Proof.
  unfold AddItem.
  destruct (Status o =s? OrderStatusDraft) eqn:Es; simpl; [|discriminate].
  destruct (q <=? 0) eqn:Eq; [discriminate|].
  intros [= <-]. apply String.eqb_eq in Es. apply Z.leb_gt in Eq. auto.
Qed.

Lemma RemoveItem_ok_inv o p now o' :
  RemoveItem o p now = (o', None) ->
  Status o = OrderStatusDraft /\
  exists items', remove_first p (Items o) = Some items' /\
    o' = set_UpdatedAt (recalculateTotal (set_Items o items')) now.
Proof.
  unfold RemoveItem.
  destruct (Status o =s? OrderStatusDraft) eqn:Es; simpl; [|discriminate].
  destruct (remove_first p (Items o)) as [items'|] eqn:Er; [|discriminate].
  intros [= <-]. apply String.eqb_eq in Es. eauto.
Qed.

(** Every method that reports an error leaves the aggregate as it was. *)
Lemma AddItem_error_unchanged o p q price now msg :
  snd (AddItem o p q price now) = Some msg -> fst (AddItem o p q price now) = o.
Proof.
  unfold AddItem.
  destruct (negb _); [reflexivity|]. destruct (q <=? 0); [reflexivity|discriminate].
Qed.

Lemma Cancel_error_unchanged o now msg :
  snd (Cancel o now) = Some msg -> fst (Cancel o now) = o.
Proof. unfold Cancel. destruct (_ || _); [reflexivity|discriminate]. Qed.

Lemma Ship_error_unchanged o now msg :
  snd (Ship o now) = Some msg -> fst (Ship o now) = o.
Proof. unfold Ship. destruct (negb _); [reflexivity|discriminate]. Qed.

Lemma Deliver_error_unchanged o now msg :
  snd (Deliver o now) = Some msg -> fst (Deliver o now) = o.
Proof. unfold Deliver. destruct (negb _); [reflexivity|discriminate]. Qed.

(** [Ship] and [Deliver] accept exactly the transitions of [CanTransitionTo]. *)
Lemma Ship_follows_table o now :
  IsValid (Status o) = true ->
  (snd (Ship o now) = None <-> CanTransitionTo (Status o) OrderStatusShipped = true).
Proof.
  unfold IsValid, Ship, CanTransitionTo. intros Hv.
  repeat (apply orb_prop in Hv as [Hv|Hv]); apply String.eqb_eq in Hv;
    rewrite Hv; cbv; split; congruence.
Qed.

Lemma Deliver_follows_table o now :
  IsValid (Status o) = true ->
  (snd (Deliver o now) = None <-> CanTransitionTo (Status o) OrderStatusDelivered = true).
Proof.
  unfold IsValid, Deliver, CanTransitionTo. intros Hv.
  repeat (apply orb_prop in Hv as [Hv|Hv]); apply String.eqb_eq in Hv;
    rewrite Hv; cbv; split; congruence.
Qed.

(** [Confirm] accepts only the transition of the table (and asks for an item). *)
Lemma Confirm_within_table o now :
  snd (Confirm o now) = None -> CanTransitionTo (Status o) OrderStatusConfirmed = true.
Proof.
  unfold Confirm, CanTransitionTo.
  destruct (Status o =s? OrderStatusDraft); simpl; [reflexivity|discriminate].
Qed.

(** [Cancel] agrees with the table on every valid status but [cancelled]. *)
Lemma Cancel_follows_table_unless_cancelled o now :
  IsValid (Status o) = true -> Status o <> OrderStatusCancelled ->
  (snd (Cancel o now) = None <-> CanTransitionTo (Status o) OrderStatusCancelled = true).
Proof.
  unfold IsValid, Cancel, CanTransitionTo. intros Hv Hc.
  repeat (apply orb_prop in Hv as [Hv|Hv]); apply String.eqb_eq in Hv;
    try congruence; rewrite Hv; cbv; split; congruence.
Qed.

(** C3. The claim asks that every transition outside the table of
    [CanTransitionTo] be rejected, cancelling a cancelled order included.
    [Order.Cancel] only tests for shipped and delivered: on an order whose
    status is already cancelled it returns no error (and stamps a new
    update time), although [CanTransitionTo] says that cancelled to
    cancelled is not a transition. *)
Theorem Cancel_accepts_cancelled_order (o : Order) (now : Time) :
  Status o = OrderStatusCancelled ->
  CanTransitionTo (Status o) OrderStatusCancelled = false /\
  Cancel o now = (set_UpdatedAt (set_Status o OrderStatusCancelled) now, None).
Proof.
  intros Hs. unfold Cancel, CanTransitionTo. rewrite Hs. split; reflexivity.
Qed.

Definition sampleAddress : Address :=
  mkAddress "1 Main St" "Springfield" "IL" "62701" "US".

Definition cancelledOrder : Order :=
  mkOrder "o-1" "c-1" [mkOrderItem "p-1" 1 (mkMoney 1000 "USD")]
          OrderStatusCancelled (mkMoney 1000 "USD") sampleAddress 10 20.

Lemma Cancel_accepts_cancelled_order_witness :
  CanTransitionTo (Status cancelledOrder) OrderStatusCancelled = false /\
  Cancel cancelledOrder 30 =
    (set_UpdatedAt (set_Status cancelledOrder OrderStatusCancelled) 30, None).
Proof. apply (Cancel_accepts_cancelled_order cancelledOrder 30). reflexivity. Defined.

(** C9. [Confirm] succeeds only on a draft order that has at least one
    item. On a draft order without items, although the status table allows
    draft to confirmed, it reports "cannot confirm order without items" and
    leaves the order, its status included, as it was. A success sets the
    status to confirmed; every failure leaves the order unchanged. *)
Theorem Confirm_requires_items (o : Order) (now : Time) :
  (snd (Confirm o now) = None <-> Status o = OrderStatusDraft /\ Items o <> []) /\
  (Status o = OrderStatusDraft -> Items o = [] ->
     CanTransitionTo (Status o) OrderStatusConfirmed = true /\
     Confirm o now = (o, Some "cannot confirm order without items")) /\
  (snd (Confirm o now) = None ->
     fst (Confirm o now) = set_UpdatedAt (set_Status o OrderStatusConfirmed) now) /\
  (snd (Confirm o now) <> None -> fst (Confirm o now) = o).
Proof.
  unfold Confirm, CanTransitionTo.
  destruct (Status o =s? OrderStatusDraft) eqn:Es; simpl.
  - apply String.eqb_eq in Es. rewrite Es.
    destruct (Items o) as [|item rest]; simpl.
    + repeat split; try discriminate; try tauto; try congruence.
      all: intros [_ H]; congruence.
    + repeat split; try discriminate; try tauto; try congruence.
  - apply String.eqb_neq in Es.
    repeat split; try discriminate; try tauto; try congruence.
Qed.

Definition emptyDraft : Order :=
  NewOrder "o-2" 10 10 "c-1" sampleAddress.

Lemma Confirm_requires_items_witness :
  Status emptyDraft = OrderStatusDraft /\ Items emptyDraft = [] /\
  CanTransitionTo (Status emptyDraft) OrderStatusConfirmed = true /\
  Confirm emptyDraft 30 = (emptyDraft, Some "cannot confirm order without items") /\
  Status (fst (Confirm emptyDraft 30)) = OrderStatusDraft.
Proof.
  destruct (Confirm_requires_items emptyDraft 30) as (_ & He & _).
  destruct (He eq_refl eq_refl) as [Ht Hc].
  rewrite Hc. repeat split; assumption.
Defined.

Definition usdDraft : Order :=
  mkOrder "o-3" "c-1" [mkOrderItem "p-1" 1 (mkMoney 1000 "USD")]
          OrderStatusDraft (mkMoney 1000 "USD") sampleAddress 10 20.

(** C5, as stated, fails: an item priced in EUR is added to a draft order
    whose only item and whose total are in USD; [AddItem] returns no error
    and the order now holds both items. *)
Lemma AddItem_mixed_currency_counterexample :
  exists o',
    AddItem usdDraft "p-2" 1 (mkMoney 500 "EUR") 30 = (o', None) /\
    Items o' = [mkOrderItem "p-1" 1 (mkMoney 1000 "USD");
                mkOrderItem "p-2" 1 (mkMoney 500 "EUR")] /\
    TotalAmount o' = mkMoney 1500 "USD" /\
    o' <> usdDraft.
Proof.
  eexists. split; [reflexivity|]. repeat split. discriminate.
Qed.

(** C5, amended. [AddItem] never looks at a currency: on a draft order an
    item of positive quantity is accepted whatever the currency of its
    price, it is appended with the price as given, and the total is
    recomputed from the amounts alone and labelled USD. *)
Theorem AddItem_ignores_currency (o : Order) (p : string) (q : Z) (price : Money)
        (now : Time) :
  Status o = OrderStatusDraft -> 0 < q ->
  exists o',
    AddItem o p q price now = (o', None) /\
    Items o' = Items o ++ [mkOrderItem p q price] /\
    TotalAmount o' = mkMoney (wrap64 (exact_total (Items o'))) "USD" /\
    Status o' = OrderStatusDraft.
Proof.
  intros Hs Hq. unfold AddItem. rewrite Hs. simpl.
  destruct (q <=? 0) eqn:E; [apply Z.leb_le in E; lia|].
  eexists. split; [reflexivity|]. simpl.
  rewrite sum_items_0. auto.
Qed.

Lemma AddItem_ignores_currency_witness :
  exists o',
    AddItem usdDraft "p-2" 1 (mkMoney 500 "EUR") 30 = (o', None) /\
    Items o' = Items usdDraft ++ [mkOrderItem "p-2" 1 (mkMoney 500 "EUR")] /\
    TotalAmount o' = mkMoney (wrap64 (exact_total (Items o'))) "USD" /\
    Status o' = OrderStatusDraft.
Proof.
  apply (AddItem_ignores_currency usdDraft "p-2" 1 (mkMoney 500 "EUR") 30).
  - reflexivity.
  - lia.
Defined.

(** C7, as stated, fails on [int64] overflow: one item of price 2^62 and
    quantity 4 is accepted, the exact sum of the subtotals is 2^64 and
    the recorded total is 0. *)
Lemma AddItem_total_overflow_counterexample :
  exists o',
    AddItem emptyDraft "p-1" 4 (mkMoney (2 ^ 62) "USD") 30 = (o', None) /\
    exact_total (Items o') = 2 ^ 64 /\
    Amount (TotalAmount o') = 0 /\
    Amount (TotalAmount o') <> exact_total (Items o').
Proof.
  eexists. split; [reflexivity|]. repeat split. discriminate.
Qed.

(** C7, amended. After every successful [AddItem] or [RemoveItem] the
    total amount is the sum over the current items of price amount times
    quantity, reduced to the range of [int64]; it is that sum itself
    whenever the sum lies in the range. An order built from two line
    items (1000 x 2, 500 x 1) has total 2500. *)
Theorem item_mutation_recomputes_total :
  (forall (o o' : Order) (p : string) (q : Z) (price : Money) (now : Time),
      AddItem o p q price now = (o', None) \/ RemoveItem o p now = (o', None) ->
      Amount (TotalAmount o') = wrap64 (exact_total (Items o')) /\
      (int64_range (exact_total (Items o')) ->
       Amount (TotalAmount o') = exact_total (Items o'))) /\
  (forall (uuid customer p1 p2 c1 c2 : string) (addr : Address)
          (t1 t2 t3 t4 : Time),
      let o0 := NewOrder uuid t1 t2 customer addr in
      let o1 := fst (AddItem o0 p1 2 (mkMoney 1000 c1) t3) in
      let r2 := AddItem o1 p2 1 (mkMoney 500 c2) t4 in
      snd r2 = None /\ Amount (TotalAmount (fst r2)) = 2500).
Proof.
  split.
  - intros o o' p q price now H.
    assert (Amount (TotalAmount o') = wrap64 (exact_total (Items o'))) as E.
    { destruct H as [H|H].
      - apply AddItem_ok_inv in H as (_ & _ & ->). simpl. apply sum_items_0.
      - apply RemoveItem_ok_inv in H as (_ & items' & _ & ->). simpl.
        apply sum_items_0. }
    split; [exact E|]. intros Hr. rewrite E. apply wrap64_id, Hr.
  - intros. split; reflexivity.
Qed.

Lemma item_mutation_recomputes_total_witness :
  exists o',
    AddItem usdDraft "p-2" 3 (mkMoney 500 "USD") 30 = (o', None) /\
    Amount (TotalAmount o') = 2500 /\
    exact_total (Items o') = 2500.
Proof.
  eexists. split; [reflexivity|].
  split; [|reflexivity].
  refine (proj2 (proj1 item_mutation_recomputes_total usdDraft _ "p-2" 3
                   (mkMoney 500 "USD") 30 (or_introl eq_refl)) _).
  unfold int64_range. simpl. lia.
Defined.

End entities_facts.

(** * Properties of the projection *)

Module projection_facts.
Import valueobjects events readmodels projection.





Lemma cacheKey_inj a b : cacheKey a = cacheKey b -> a = b.
Proof. unfold cacheKey. simpl. intros E. injection E. auto. Qed.



(** [GetOrder] never writes to the table. *)
Lemma GetOrder_rows env st orderID :
  rows (fst (fst (GetOrder env st orderID))) = rows st.
Proof.
  unfold GetOrder.
  destruct (redis_Get _ _ _ _); [reflexivity |].
  destruct (rows st !! orderID); reflexivity.
Qed.

(** A fetch that misses both the cache and the table fails and changes nothing. *)
Lemma GetOrder_miss env st orderID :
  rows st !! orderID = None -> redis st !! cacheKey orderID = None ->
  GetOrder env st orderID = (st, None, Some "order not found").
Proof.
  intros Hr Hc. unfold GetOrder, redis_Get. rewrite Hc, Hr.
  destruct (get_answered env); reflexivity.
Qed.







(** The items column of the stored record of an order, if it has one. *)
Definition stored_items (st : ReadStore) (orderID : string) : option (list OrderItemDTO) :=
  items <$> rows st !! orderID.



(** The event kinds whose handler starts by fetching the stored record. *)
Definition needs_record (ev : DomainEvent) : bool :=
  match ev with
  | OrderConfirmed _ | OrderShipped _ | OrderDelivered _ | OrderCancelled _
  | OrderItemAdded _ | OrderItemRemoved _ => true
  | _ => false
  end.




(** C8. An event of kind Confirmed, Shipped, Delivered, Cancelled,
    ItemAdded or ItemRemoved whose order has no record, neither in the
    table nor in the cache, is answered with the error "order not found",
    and the read model is left as it was, whatever Redis does. *)
Theorem projection_fetch_miss (env : Redis) (st : ReadStore) (ev : DomainEvent) :
  needs_record ev = true ->
  rows st !! AggregateID_ ev = None ->
  redis st !! cacheKey (AggregateID_ ev) = None ->
  Handle env st ev = (st, Some "order not found").
Proof.
  intros Hk Hr Hc. unfold AggregateID_ in Hr, Hc.
  destruct ev; try discriminate Hk; simpl in Hr, Hc |- *;
    unfold handleOrderConfirmed, handleOrderShipped, handleOrderDelivered,
      handleOrderCancelled, handleOrderItemAdded,
      handleOrderItemRemoved;
    rewrite (GetOrder_miss env st _ Hr Hc); reflexivity.
Qed.

Definition emptyStore : ReadStore := mkReadStore ∅ ∅.

(** Redis answering every command, at the start of its clock; the same, one
    hour later; and Redis answering nothing. *)
Definition warm : Redis := mkRedis 0 true true true.

Definition createdEvent : DomainEvent :=
  OrderCreated
    (mkOrderCreated (mkBase "OrderCreated" "o-1" 10) "c-1"
       [mkOrderItemData "p-1" 2 (mkMoney 1000 "USD");
        mkOrderItemData "p-1" 1 (mkMoney 500 "USD")]
       (mkMoney 2500 "USD")
       (mkAddress "1 Main St" "Springfield" "IL" "62701" "US")).



Definition addedEvent : OrderItemAddedEvent :=
  mkOrderItemAdded (mkBase "OrderItemAdded" "o-1" 30) "p-2" 1 (mkMoney 300 "USD").

Definition removedEvent : DomainEvent :=
  OrderItemRemoved (mkOrderItemRemoved (mkBase "OrderItemRemoved" "o-1" 40) "p-1").

(** The read model after the Created event of the order "o-1". *)
Definition projectedStore : ReadStore := fst (Handle warm emptyStore createdEvent).






(** Removal is not idempotent either: with two lines of the product, each
    handling of the same ItemRemoved drops one of them. *)
Lemma ItemRemoved_twice_example :
  let once := fst (Handle warm projectedStore removedEvent) in
  let twice := fst (Handle warm once removedEvent) in
  stored_items once "o-1" = Some [mkOrderItemDTO "p-1" 1 (mkMoney 500 "USD")] /\
  stored_items twice "o-1" = Some [].
Proof. vm_compute. split; reflexivity. Qed.

Lemma projection_fetch_miss_witness :
  needs_record (OrderItemAdded addedEvent) = true /\
  rows emptyStore !! AggregateID_ (OrderItemAdded addedEvent) = None /\
  redis emptyStore !! cacheKey (AggregateID_ (OrderItemAdded addedEvent)) = None /\
  Handle warm emptyStore (OrderItemAdded addedEvent)
  = (emptyStore, Some "order not found").
Proof.
  assert (rows emptyStore !! AggregateID_ (OrderItemAdded addedEvent) = None) as Hr
      by reflexivity.
  assert (redis emptyStore !! cacheKey (AggregateID_ (OrderItemAdded addedEvent)) = None)
    as Hc by reflexivity.
  split; [reflexivity|]. split; [exact Hr|]. split; [exact Hc|].
  apply (projection_fetch_miss warm emptyStore (OrderItemAdded addedEvent) eq_refl Hr Hc).
Defined.

End projection_facts.

Module eventbus_facts.
Import events eventbus.

Definition sampleConfirmed : DomainEvent :=
  OrderConfirmed (mkOrderConfirmed (mkBase "OrderConfirmed" "o-1" 40) "c-1").

(** A codec for examples: the byte string of an event is the event. *)
Definition idCodec : Codec DomainEvent :=
  {| json_Marshal := fun ev => ev;
     unmarshal_created := fun b => match b with OrderCreated e => Some e | _ => None end;
     unmarshal_confirmed := fun b => match b with OrderConfirmed e => Some e | _ => None end;
     unmarshal_shipped := fun b => match b with OrderShipped e => Some e | _ => None end;
     unmarshal_delivered := fun b => match b with OrderDelivered e => Some e | _ => None end;
     unmarshal_cancelled := fun b => match b with OrderCancelled e => Some e | _ => None end;
     unmarshal_added := fun b => match b with OrderItemAdded e => Some e | _ => None end;
     unmarshal_removed := fun b => match b with OrderItemRemoved e => Some e | _ => None end |}.

(** C4, as stated, fails: the message built for an event of the order
    "o-1" has no key at all, so its key is not the aggregate identity. *)
Lemma Publish_message_key_counterexample :
  AggregateID_ sampleConfirmed = "o-1" /\
  Key (Publish_message idCodec sampleConfirmed) = None /\
  Key (Publish_message idCodec sampleConfirmed)
    <> Some (AggregateID_ sampleConfirmed).
Proof. repeat split. discriminate. Qed.

(** C4, amended. For every event, [Publish] builds a message for the
    topic "orders" with no key and no chosen partition; the aggregate
    identity travels in the header "aggregate-id", next to the event type
    in the header "event-type", and the value is the marshalled event. *)
Theorem Publish_message_shape {Bytes} (codec : Codec Bytes) (event : DomainEvent) :
  let m := Publish_message codec event in
  Key m = None /\
  TopicPartition_ m = mkTopicPartition "orders" PartitionAny /\
  Headers m = [("event-type", Type_ event); ("aggregate-id", AggregateID_ event)] /\
  Value m = json_Marshal codec event.
Proof. repeat split. Qed.

End eventbus_facts.

(** * Properties of the write side *)

Module repositories_facts.
Import valueobjects events repositories.

Section Frames.
Context {Bytes : Type} (codec : Codec Bytes) (env : Oracle).

(** A computation that leaves a part [part] of the database as it found
    it, whatever its outcome. *)
Definition keeps {X A} (part : DB Bytes -> X) (m : M (Bytes:=Bytes) A) : Prop :=
  forall w, part (db (fst (m w))) = part (db w).

(** The parts that depend on the tables [events] and [outbox_events] only. *)
Definition of_the_logs {X} (part : DB Bytes -> X) : Prop :=
  forall d d', events_tbl d = events_tbl d' ->
               outbox_events d = outbox_events d' -> part d = part d'.

Lemma events_of_the_logs : of_the_logs (@events_tbl Bytes).
Proof. intros d d' H _. exact H. Qed.

Lemma outbox_of_the_logs : of_the_logs (@outbox_events Bytes).
Proof. intros d d' _ H. exact H. Qed.

Section Generic.
Context {X : Type} (part : DB Bytes -> X).

Lemma keeps_ret {A} (a : A) : keeps part (ret (Bytes:=Bytes) a).
Proof. intros w. reflexivity. Qed.

Lemma keeps_fail {A} msg : keeps part (fail (Bytes:=Bytes) (A:=A) msg).
Proof. intros w. reflexivity. Qed.

Lemma keeps_bind {A B} (m : M A) (k : A -> M B) :
  keeps part m -> (forall a, keeps part (k a)) -> keeps part (bind m k).
Proof.
  intros Hm Hk w. unfold bind. specialize (Hm w).
  destruct (m w) as [w1 [a|msg]]; simpl in *.
  - rewrite Hk. exact Hm.
  - exact Hm.
Qed.

Lemma keeps_wrapping {A} prefix (m : M A) :
  keeps part m -> keeps part (wrapping prefix m).
Proof.
  intros Hm w. unfold wrapping. specialize (Hm w).
  destruct (m w) as [w1 [a|msg]]; exact Hm.
Qed.

Lemma keeps_time_Now : keeps part (time_Now env).
Proof. intros w. reflexivity. Qed.

Lemma keeps_uuid_New : keeps part (uuid_New env).
Proof. intros w. reflexivity. Qed.

Lemma keeps_QueryContext {A} (q : DB Bytes -> A) : keeps part (QueryContext env q).
Proof. intros w. unfold QueryContext. destruct (faults env (tick w)); reflexivity. Qed.

Lemma keeps_ExecContext {A} (stmt : DB Bytes -> result (DB Bytes * A)) :
  (forall d d' a, stmt d = Ok (d', a) -> part d' = part d) ->
  keeps part (ExecContext env stmt).
Proof.
  intros Hs w. unfold ExecContext.
  destruct (faults env (tick w)); [reflexivity|].
  destruct (stmt (db w)) as [[d a]|msg] eqn:E; [|reflexivity].
  simpl. eapply Hs, E.
Qed.

Lemma keeps_for_each {A} (f : A -> M unit) xs :
  (forall x, keeps part (f x)) -> keeps part (for_each f xs).
Proof.
  intros Hf. induction xs as [|x rest IH]; simpl.
  - apply keeps_ret.
  - apply keeps_bind; auto.
Qed.

Lemma keeps_Save order : of_the_logs part -> keeps part (Save env order).
Proof.
  intros Hp. unfold Save, saveOrderItems.
  repeat first
    [ apply keeps_bind; [|intros ?]
    | apply keeps_wrapping
    | apply keeps_for_each; intros ?
    | apply keeps_ExecContext;
      unfold upsert_order, delete_order_items, insert_order_item;
      intros ? ? ? [= <- _]; apply Hp; reflexivity ].
Qed.

Lemma keeps_FindByID id : keeps part (FindByID env id).
Proof.
  unfold FindByID, findOrderItems.
  apply keeps_bind; [apply keeps_wrapping, keeps_QueryContext|].
  intros [row|]; [|apply keeps_fail].
  apply keeps_bind; [|intros ?; apply keeps_ret].
  apply keeps_wrapping, keeps_wrapping, keeps_QueryContext.
Qed.

End Generic.

Lemma keeps_SaveEvent event : keeps (@events_tbl Bytes) (SaveEvent codec env event).
Proof.
  unfold SaveEvent.
  apply keeps_bind; [apply keeps_uuid_New|intros id].
  apply keeps_bind; [apply keeps_time_Now|intros now].
  apply keeps_wrapping, keeps_ExecContext.
  unfold insert_outbox. intros d d' a.
  destruct (existsb _ _); [discriminate|]. intros [= <- _]. reflexivity.
Qed.

(** [SaveEvent] appends one unprocessed entry of the type of the event,
    or fails and leaves the outbox as it was. *)
Lemma SaveEvent_outbox prefix event (w : World Bytes) :
  let r := wrapping prefix (SaveEvent codec env event) w in
  ((exists msg, snd r = Err msg) /\
   outbox_events (db (fst r)) = outbox_events (db w)) \/
  (snd r = Ok tt /\
   exists id now,
     outbox_events (db (fst r)) =
     outbox_events (db w) ++
       [mkOutboxEvent id (Type_ event) (json_Marshal codec event) now false]).
Proof.
  simpl. unfold wrapping, SaveEvent, bind, uuid_New, time_Now, wrapping, ExecContext.
  simpl.
  destruct (faults env (S (S (tick w)))); [left; split; [eauto|reflexivity]|].
  unfold insert_outbox. simpl.
  destruct (existsb _ _); [left; split; [eauto|reflexivity]|].
  right. split; [reflexivity|]. simpl. eauto.
Qed.

(** A transaction that fails leaves the database as it was. *)
Lemma in_tx_rollback (body : M (Bytes:=Bytes) unit) (w : World Bytes) msg :
  snd (in_tx env body w) = Err msg -> db (fst (in_tx env body w)) = db w.
Proof.
  unfold in_tx. destruct (faults env (tick w)); [reflexivity|].
  destruct (body (bump w)) as [w1 [u|e]]; [|reflexivity].
  destruct (faults env (tick w1)); [reflexivity|discriminate].
Qed.

(** [SaveEvents] with one event: either it fails and nothing is written,
    or it succeeds and the event is appended with version
    [expectedVersion + 1], which no row of the aggregate had. *)
Lemma SaveEvents_one aggregateID event expectedVersion (w : World Bytes) :
  let row := {| aggregate_id := aggregateID;
                event_type := Type_ event;
                event_data := json_Marshal codec event;
                version := add64 (add64 expectedVersion 0) 1;
                occurred_at := OccurredAt_ event |} in
  let r := SaveEvents codec env aggregateID [event] expectedVersion w in
  (snd r <> Ok tt /\ db (fst r) = db w) \/
  (snd r = Ok tt /\
   existsb (fun x => (aggregate_id x =s? aggregateID) && (version x =? version row))
           (events_tbl (db w)) = false /\
   events_tbl (db (fst r)) = events_tbl (db w) ++ [row] /\
   outbox_events (db (fst r)) = outbox_events (db w)).
Proof.
  simpl. unfold SaveEvents, in_tx.
  destruct (faults env (tick w)); [left; split; [discriminate|reflexivity]|].
  simpl. unfold bind, wrapping, ExecContext. simpl.
  destruct (faults env (S (tick w))); [left; split; [discriminate|reflexivity]|].
  unfold insert_event. simpl.
  destruct (existsb _ (events_tbl (db w))) eqn:Ex;
    [left; split; [discriminate|reflexivity]|].
  simpl.
  destruct (faults env (S (S (tick w)))); [left; split; [discriminate|reflexivity]|].
  right. repeat split.
Qed.

Lemma SaveEvents_one_wrapped prefix aggregateID event expectedVersion (w : World Bytes) :
  let row := {| aggregate_id := aggregateID;
                event_type := Type_ event;
                event_data := json_Marshal codec event;
                version := add64 (add64 expectedVersion 0) 1;
                occurred_at := OccurredAt_ event |} in
  let r := wrapping prefix
             (SaveEvents codec env aggregateID [event] expectedVersion) w in
  (snd r <> Ok tt /\ db (fst r) = db w) \/
  (snd r = Ok tt /\
   existsb (fun x => (aggregate_id x =s? aggregateID) && (version x =? version row))
           (events_tbl (db w)) = false /\
   events_tbl (db (fst r)) = events_tbl (db w) ++ [row] /\
   outbox_events (db (fst r)) = outbox_events (db w)).
Proof.
  pose proof (SaveEvents_one aggregateID event expectedVersion w) as H.
  simpl in *. unfold wrapping.
  destruct (SaveEvents codec env aggregateID [event] expectedVersion w)
    as [w1 [[]|msg]]; simpl in *.
  - exact H.
  - left. split; [discriminate|]. destruct H as [[_ H]|[H _]]; [exact H|discriminate].
Qed.

End Frames.

End repositories_facts.

Module handlers_facts.
Import valueobjects events repositories handlers repositories_facts.

(** The five operations of the command service. *)
Inductive Command :=
| DoCreateOrder (cmd : CreateOrderCommand)
| DoConfirmOrder (orderID : string)
| DoCancelOrder (orderID reason : string)
| DoAddOrderItem (orderID productID : string) (quantity : Z) (price : Money)
| DoRemoveOrderItem (orderID productID : string).

Definition is_create (c : Command) : bool :=
  match c with DoCreateOrder _ => true | _ => false end.

(** The type of the event a command produces. *)
Definition event_type_of (c : Command) : string :=
  match c with
  | DoCreateOrder _ => "OrderCreated"
  | DoConfirmOrder _ => "OrderConfirmed"
  | DoCancelOrder _ _ => "OrderCancelled"
  | DoAddOrderItem _ _ _ _ => "OrderItemAdded"
  | DoRemoveOrderItem _ _ => "OrderItemRemoved"
  end.

(** The audit log when it holds nothing but Created events: every row is
    an "OrderCreated" at version 1, and no aggregate has two rows. *)
Definition only_created {Bytes} (log : list (EventRow Bytes)) : Prop :=
  List.NoDup (map (@aggregate_id Bytes) log) /\
  Forall (fun r => version r = 1 /\ event_type r = "OrderCreated") log.

Lemma only_created_snoc {Bytes} (log : list (EventRow Bytes)) row :
  only_created log ->
  existsb (fun x => (aggregate_id x =s? aggregate_id row) && (version x =? 1)) log = false ->
  version row = 1 -> event_type row = "OrderCreated" ->
  only_created (log ++ [row]).
Proof.
  intros [Hnd Hall] Hex Hv Ht. split.
  - rewrite map_app. simpl.
    apply List.NoDup_app; [exact Hnd|repeat constructor; intros []|].
    intros a Ha [<-|[]].
    apply in_map_iff in Ha as (x & Hx & Hin).
    assert (existsb (fun x => (aggregate_id x =s? aggregate_id row) && (version x =? 1))
                    log = true) as Habs; [|congruence].
    apply existsb_exists. exists x. split; [exact Hin|].
    rewrite List.Forall_forall in Hall. destruct (Hall x Hin) as [Hvx _].
    rewrite Hx, Hvx, String.eqb_refl. reflexivity.
  - apply Forall_app. split; [exact Hall|]. repeat constructor; assumption.
Qed.

Section CommandFacts.
Context {Bytes : Type} (codec : Codec Bytes) (env : Oracle).

(** A command as a computation that returns no value. *)
Definition run (c : Command) : M (Bytes:=Bytes) unit :=
  match c with
  | DoCreateOrder cmd => let* _ := CreateOrder codec env cmd in ret tt
  | DoConfirmOrder id => ConfirmOrder codec env id
  | DoCancelOrder id reason => CancelOrder codec env id reason
  | DoAddOrderItem id p q price => AddOrderItem codec env id p q price
  | DoRemoveOrderItem id p => RemoveOrderItem codec env id p
  end.

Section Generic.
Context {X : Type} (part : DB Bytes -> X).

Lemma keeps_calling method : keeps part (calling (Bytes:=Bytes) env method).
Proof.
  intros w. unfold calling.
  destruct (method _) as [o [msg|]]; reflexivity.
Qed.

Lemma keeps_newOrder c a : keeps part (newOrder (Bytes:=Bytes) env c a).
Proof.
  unfold newOrder.
  repeat (apply keeps_bind;
          [first [apply keeps_uuid_New|apply keeps_time_Now]|intros ?]).
  apply keeps_ret.
Qed.

Lemma keeps_addItems order items :
  keeps part (addItems (Bytes:=Bytes) env order items).
Proof.
  revert order. induction items as [|item rest IH]; intros order; simpl.
  - apply keeps_ret.
  - apply keeps_bind; [apply keeps_wrapping, keeps_calling|auto].
Qed.

End Generic.

(** Load, change, save, write the event to the outbox: the body that
    the four commands on an existing order share. *)
Definition load_change_save (prefix : string) (id : string)
           (method : entities.Order -> Time -> entities.Order * error)
           (mkEvent : entities.Order -> Time -> DomainEvent) : M (Bytes:=Bytes) unit :=
  let* order0 := wrapping "failed to find order" (FindByID env id) in
  let* order := wrapping prefix (calling env (method order0)) in
  wrapping "failed to update order" (Update env order) ;;
  let* now := time_Now env in
  wrapping "failed to save event to outbox" (SaveEvent codec env (mkEvent order now)).

Lemma run_load_change_save c :
  is_create c = false ->
  exists prefix id method mkEvent,
    run c = load_change_save prefix id method mkEvent /\
    forall o now, Type_ (mkEvent o now) = event_type_of c.
Proof.
  destruct c as [cmd|id|id reason|id p q price|id p]; [discriminate| | | |]; intros _.
  - exists "failed to confirm order", id, entities.Confirm,
      (fun o now => OrderConfirmed (NewOrderConfirmedEvent o now)).
    split; reflexivity.
  - exists "failed to cancel order", id, entities.Cancel,
      (fun o now => OrderCancelled (NewOrderCancelledEvent o reason now)).
    split; reflexivity.
  - exists "failed to add item", id, (fun o => entities.AddItem o p q price),
      (fun o now => OrderItemAdded (NewOrderItemAddedEvent o p q price now)).
    split; reflexivity.
  - exists "failed to remove item", id, (fun o => entities.RemoveItem o p),
      (fun o now => OrderItemRemoved (NewOrderItemRemovedEvent o p now)).
    split; reflexivity.
Qed.

Lemma load_change_save_keeps_events prefix id method mkEvent :
  keeps (@events_tbl Bytes) (load_change_save prefix id method mkEvent).
Proof.
  unfold load_change_save.
  apply keeps_bind; [apply keeps_wrapping, keeps_FindByID|intros order0].
  apply keeps_bind; [apply keeps_wrapping, keeps_calling|intros order].
  apply keeps_bind;
    [apply keeps_wrapping, keeps_Save, events_of_the_logs|intros _].
  apply keeps_bind; [apply keeps_time_Now|intros now].
  apply keeps_wrapping, keeps_SaveEvent.
Qed.

(** The shared body fails and leaves the outbox as it was, or succeeds
    and appends one unprocessed entry holding the event it built. *)
Lemma load_change_save_outbox prefix id method mkEvent (w : World Bytes) :
  let r := load_change_save prefix id method mkEvent w in
  ((exists msg, snd r = Err msg) /\
   outbox_events (db (fst r)) = outbox_events (db w)) \/
  (snd r = Ok tt /\
   exists order now entryID created,
     outbox_events (db (fst r)) =
     outbox_events (db w) ++
       [mkOutboxEvent entryID (Type_ (mkEvent order now))
                      (json_Marshal codec (mkEvent order now)) created false]).
Proof.
  simpl. unfold load_change_save, bind.
  pose proof (keeps_wrapping (@outbox_events Bytes) "failed to find order" _
                (keeps_FindByID env _ id) w) as K1.
  destruct (wrapping "failed to find order" _ w) as [w1 [order0|msg]]; simpl in K1;
    [|left; split; [eauto|exact K1]].
  pose proof (keeps_wrapping (@outbox_events Bytes) prefix _
                (keeps_calling _ (method order0)) w1) as K2.
  destruct (wrapping prefix _ w1) as [w2 [order|msg]]; simpl in K2;
    [|left; split; [eauto|simpl; congruence]].
  pose proof (keeps_wrapping (@outbox_events Bytes) "failed to update order" _
                (keeps_Save env _ order outbox_of_the_logs) w2) as K3.
  unfold Update.
  destruct (wrapping "failed to update order" _ w2) as [w3 [[]|msg]]; simpl in K3;
    [|left; split; [eauto|simpl; congruence]].
  unfold time_Now. cbv beta iota zeta.
  pose proof (SaveEvent_outbox codec env "failed to save event to outbox"
                (mkEvent order (now_at env (tick w3))) (bump w3)) as K4.
  simpl in K4. rewrite K3, K2, K1 in K4.
  destruct K4 as [K4|[Hok (entryID & created & K4)]]; [left; exact K4|].
  right. split; [exact Hok|]. eauto.
Qed.

(** What [CreateOrder] does to the table [events]: nothing when it
    fails before or in [SaveEvents]; otherwise one row, of the new
    order, of type "OrderCreated" and version 1, which that order did
    not have. *)
Lemma CreateOrder_events cmd (w : World Bytes) :
  let r := CreateOrder codec env cmd w in
  ((forall o, snd r <> Ok o) /\ events_tbl (db (fst r)) = events_tbl (db w)) \/
  (exists row,
      events_tbl (db (fst r)) = events_tbl (db w) ++ [row] /\
      version row = 1 /\ event_type row = "OrderCreated" /\
      existsb (fun x => (aggregate_id x =s? aggregate_id row) && (version x =? 1))
              (events_tbl (db w)) = false /\
      (forall o, snd r = Ok o -> aggregate_id row = entities.ID o)).
Proof.
  simpl. unfold CreateOrder.
  destruct (CreateOrderCommand_Validate cmd) as [msg|];
    [left; split; [discriminate|reflexivity]|].
  unfold bind.
  pose proof (keeps_newOrder (@events_tbl Bytes)
                (CustomerID cmd) (ShippingAddress cmd) w) as K1.
  destruct (newOrder env _ _ w) as [w1 [order0|msg]]; simpl in K1;
    [|left; split; [discriminate|exact K1]].
  pose proof (keeps_addItems (@events_tbl Bytes) order0 (Items cmd) w1) as K2.
  destruct (addItems env order0 _ w1) as [w2 [order|msg]]; simpl in K2;
    [|left; split; [discriminate|simpl; congruence]].
  pose proof (keeps_wrapping (@events_tbl Bytes) "failed to save order" _
                (keeps_Save env _ order events_of_the_logs) w2) as K3.
  destruct (wrapping "failed to save order" _ w2) as [w3 [[]|msg]]; simpl in K3;
    [|left; split; [discriminate|simpl; congruence]].
  unfold time_Now. cbv beta iota zeta.
  set (event := OrderCreated (NewOrderCreatedEvent order (now_at env (tick w3)))).
  pose proof (SaveEvents_one_wrapped codec env "failed to save event"
                (entities.ID order) event 0 (bump w3)) as K4.
  simpl in K4.
  destruct (wrapping "failed to save event" _ (bump w3)) as [w4 [[]|msg]]; simpl in K4.
  - destruct K4 as [[K4 _]|(_ & Hex & K4 & _)]; [congruence|].
    change (add64 (add64 0 0) 1) with 1 in Hex, K4.
    change (Type_ event) with "OrderCreated" in K4.
    pose proof (keeps_wrapping (@events_tbl Bytes) "failed to save event to outbox" _
                  (keeps_SaveEvent codec env event) w4) as K5.
    right.
    exists {| aggregate_id := entities.ID order;
              event_type := "OrderCreated";
              event_data := json_Marshal codec event;
              version := 1;
              occurred_at := OccurredAt_ event |}.
    simpl. rewrite <- K1, <- K2, <- K3. change (db (bump w3)) with (db w3) in Hex, K4.
    split; [|split; [reflexivity|split; [reflexivity|split; [exact Hex|]]]].
    + destruct (wrapping "failed to save event to outbox" _ w4) as [w5 [[]|msg]];
        unfold ret; simpl in K5 |- *; rewrite K5, K4; reflexivity.
    + destruct (wrapping "failed to save event to outbox" _ w4) as [w5 [[]|msg]];
        unfold ret; simpl; [intros o [= <-]; reflexivity|discriminate].
  - destruct K4 as [[_ K4]|(K4 & _)]; [|discriminate].
    left. split; [discriminate|]. simpl. simpl in K4. congruence.
Qed.

(** C10. [CreateOrder], when it succeeds, appends one row to the event
    store: the "OrderCreated" of the new order, at version 1. The four
    other commands never change the event store, whatever they return;
    when they succeed, their event is one new unprocessed entry of the
    outbox. So an event store that holds only Created events, one per
    aggregate at most, stays so under every command. *)
Theorem event_store_only_created :
  (forall cmd (w w' : World Bytes) order,
      CreateOrder codec env cmd w = (w', Ok order) ->
      exists row,
        events_tbl (db w') = events_tbl (db w) ++ [row] /\
        aggregate_id row = entities.ID order /\
        event_type row = "OrderCreated" /\ version row = 1) /\
  (forall c (w : World Bytes),
      is_create c = false ->
      events_tbl (db (fst (run c w))) = events_tbl (db w) /\
      (snd (run c w) = Ok tt ->
       exists entry,
         outbox_events (db (fst (run c w))) = outbox_events (db w) ++ [entry] /\
         EventType entry = event_type_of c /\ Processed entry = false)) /\
  (forall c (w : World Bytes),
      only_created (events_tbl (db w)) ->
      only_created (events_tbl (db (fst (run c w))))).
Proof.
  split; [|split].
  - intros cmd w w' order H.
    pose proof (CreateOrder_events cmd w) as K. simpl in K. rewrite H in K. simpl in K.
    destruct K as [[K _]|(row & Hr & Hv & Ht & _ & Hid)]; [exfalso; eapply K; eauto|].
    exists row. auto.
  - intros c w Hc.
    destruct (run_load_change_save c Hc) as (prefix & id & method & mkEvent & -> & Hty).
    split; [apply load_change_save_keeps_events|].
    intros Hok.
    destruct (load_change_save_outbox prefix id method mkEvent w)
      as [[[msg Hm] _]|(_ & order & now & entryID & created & Hout)]; [congruence|].
    eexists. split; [exact Hout|]. split; [apply Hty|reflexivity].
  - intros c w Hinv.
    destruct (is_create c) eqn:Hc.
    + destruct c as [cmd| | | |]; try discriminate. simpl.
      pose proof (CreateOrder_events cmd w) as K. simpl in K.
      unfold bind.
      destruct (CreateOrder codec env cmd w) as [w1 [o|msg]]; simpl in K |- *.
      * destruct K as [[K _]|(row & Hr & Hv & Ht & Hex & _)];
          [exfalso; eapply K; eauto|].
        rewrite Hr. apply only_created_snoc; assumption.
      * destruct K as [[_ K]|(row & Hr & Hv & Ht & Hex & _)].
        -- rewrite K. exact Hinv.
        -- rewrite Hr. apply only_created_snoc; assumption.
    + destruct (run_load_change_save c Hc) as (prefix & id & method & mkEvent & -> & _).
      rewrite load_change_save_keeps_events. exact Hinv.
Qed.

End CommandFacts.

End handlers_facts.

(** * Properties of the publisher *)

Module publisher_facts.
Import events repositories handlers repositories_facts.

Section Lists.
Context {A : Type}.

Lemma firstn_In (n : nat) (l : list A) x : In x (firstn n l) -> In x l.
Proof.
  revert l. induction n as [|n IH]; intros [|y l]; simpl; try tauto.
  intros [->|H]; auto.
Qed.

Lemma firstn_In_S (n : nat) (l : list A) x : In x (firstn n l) -> In x (firstn (S n) l).
Proof.
  revert l. induction n as [|n IH]; intros [|y l]; simpl; try tauto.
  intros [->|H]; [auto|]. right. apply (IH l H).
Qed.

(** An element among the first [n] stays among the first [n] when other
    elements are filtered out. *)
Lemma firstn_filter_In (q : A -> bool) (n : nat) (l : list A) x :
  In x (firstn n l) -> q x = true -> In x (firstn n (List.filter q l)).
Proof.
  revert n. induction l as [|y l IH]; intros [|n]; simpl; try tauto.
  intros [->|H] Hq.
  - rewrite Hq. left. reflexivity.
  - destruct (q y); [right; auto|].
    apply firstn_In_S. auto.
Qed.

Lemma filter_andb (p q : A -> bool) (l : list A) :
  List.filter (fun x => p x && q x) l = List.filter q (List.filter p l).
Proof.
  induction l as [|y l IH]; simpl; [reflexivity|].
  destruct (p y); simpl; [destruct (q y)|]; rewrite IH; reflexivity.
Qed.

Lemma firstn_StronglySorted (R : A -> A -> Prop) (n : nat) (l : list A) :
  StronglySorted R l -> StronglySorted R (firstn n l).
Proof.
  intros H. revert n. induction H as [|y l Hs IH Hall]; intros [|n]; simpl;
    try constructor.
  - apply IH.
  - rewrite List.Forall_forall in *. intros z Hz. apply Hall, (firstn_In n), Hz.
Qed.

Lemma NoDup_firstn (n : nat) (l : list A) : List.NoDup l -> List.NoDup (firstn n l).
Proof.
  intros H. revert n. induction H as [|y l Hy Hnd IH]; intros [|n]; simpl;
    try constructor; [|apply IH].
  intros Hin. apply Hy, (firstn_In n), Hin.
Qed.

Lemma NoDup_map_eq {B} (f : A -> B) (l : list A) a b :
  List.NoDup (map f l) -> In a l -> In b l -> f a = f b -> a = b.
Proof.
  induction l as [|y l IH]; simpl; [tauto|].
  intros Hnd Ha Hb E. apply List.NoDup_cons_iff in Hnd as [Hy Hnd].
  destruct Ha as [->|Ha], Hb as [->|Hb]; auto.
  - exfalso. apply Hy. rewrite E. apply in_map, Hb.
  - exfalso. apply Hy. rewrite <- E. apply in_map, Ha.
Qed.

End Lists.

Section Outbox.
Context {Bytes : Type}.
Abbreviation Entry := (OutboxEvent Bytes).

Definition unprocessed (r : Entry) : bool := negb (Processed r).

Definition older (a b : Entry) : Prop := CreatedAt a <= CreatedAt b.

Lemma insert_by_created_In (r : Entry) (l : list Entry) x :
  In x (insert_by_created r l) <-> x = r \/ In x l.
Proof.
  induction l as [|y l IH]; simpl; [intuition|].
  destruct (CreatedAt r <=? CreatedAt y); simpl; [intuition|].
  rewrite IH. intuition.
Qed.

Lemma insert_by_created_Permutation (r : Entry) (l : list Entry) :
  Permutation (insert_by_created r l) (r :: l).
Proof.
  induction l as [|y l IH]; simpl; [reflexivity|].
  destruct (CreatedAt r <=? CreatedAt y); [reflexivity|].
  rewrite IH. apply perm_swap.
Qed.

Lemma sort_by_created_Permutation (l : list Entry) :
  Permutation (sort_by_created l) l.
Proof.
  induction l as [|r l IH]; simpl; [reflexivity|].
  rewrite insert_by_created_Permutation, IH. reflexivity.
Qed.

Lemma insert_by_created_sorted (r : Entry) (l : list Entry) :
  StronglySorted older l -> StronglySorted older (insert_by_created r l).
Proof.
  induction 1 as [|y l Hs IH Hall]; simpl.
  - repeat constructor.
  - destruct (CreatedAt r <=? CreatedAt y) eqn:E.
    + apply Z.leb_le in E. constructor; [constructor; assumption|].
      constructor; [exact E|].
      rewrite List.Forall_forall in *. intros z Hz. specialize (Hall z Hz).
      unfold older in *. lia.
    + apply Z.leb_gt in E. constructor; [exact IH|].
      rewrite List.Forall_forall in *. intros z Hz.
      apply insert_by_created_In in Hz as [->|Hz]; [unfold older; lia|auto].
Qed.

Lemma sort_by_created_sorted (l : list Entry) :
  StronglySorted older (sort_by_created l).
Proof.
  induction l as [|r l IH]; simpl; [constructor|].
  apply insert_by_created_sorted, IH.
Qed.

Lemma insert_by_created_head (r : Entry) (l : list Entry) :
  Forall (older r) l -> insert_by_created r l = r :: l.
Proof.
  destruct 1 as [|y l Hy _]; simpl; [reflexivity|].
  unfold older in Hy. apply Z.leb_le in Hy. rewrite Hy. reflexivity.
Qed.

Lemma insert_by_created_filter (q : Entry -> bool) (r : Entry) (l : list Entry) :
  StronglySorted older l ->
  List.filter q (insert_by_created r l) =
  if q r then insert_by_created r (List.filter q l) else List.filter q l.
Proof.
  induction 1 as [|y l Hs IH Hall]; simpl.
  - destruct (q r); reflexivity.
  - destruct (CreatedAt r <=? CreatedAt y) eqn:E; simpl.
    + destruct (q r) eqn:Hr; [|reflexivity].
      apply Z.leb_le in E. symmetry. apply insert_by_created_head.
      rewrite List.Forall_forall in *. intros z Hz.
      assert (In z (y :: l)) as Hin.
      { destruct (q y); [destruct Hz as [<-|Hz]; [left; reflexivity|]|];
          right; apply filter_In in Hz; tauto. }
      destruct Hin as [<-|Hin]; [exact E|].
      specialize (Hall z Hin). unfold older in *. lia.
    + rewrite IH. destruct (q y), (q r); simpl; try reflexivity.
      rewrite E. reflexivity.
Qed.

(** The sort is stable: it commutes with every filter. *)
Lemma sort_by_created_filter (q : Entry -> bool) (l : list Entry) :
  sort_by_created (List.filter q l) = List.filter q (sort_by_created l).
Proof.
  induction l as [|r l IH]; simpl; [reflexivity|].
  rewrite insert_by_created_filter by apply sort_by_created_sorted.
  destruct (q r); simpl; rewrite IH; reflexivity.
Qed.

(** What [GetUnprocessedEvents] fetches: unprocessed entries of the
    table, by creation time, one hundred at most. *)
Lemma select_unprocessed_spec (tbl : list Entry) :
  Forall (fun r => Processed r = false) (select_unprocessed tbl) /\
  StronglySorted older (select_unprocessed tbl) /\
  (length (select_unprocessed tbl) <= 100)%nat /\
  (forall r, In r (select_unprocessed tbl) -> In r tbl).
Proof.
  unfold select_unprocessed.
  assert (forall r, In r (firstn 100 (sort_by_created (List.filter
             (fun r => negb (Processed r)) tbl))) ->
          In r tbl /\ Processed r = false) as Hin.
  { intros r Hr. apply firstn_In in Hr.
    apply (Permutation_in _ (sort_by_created_Permutation _)) in Hr.
    apply filter_In in Hr as [Hr Hp]. split; [exact Hr|].
    destruct (Processed r); [discriminate|reflexivity]. }
  split; [|split; [|split]].
  - apply List.Forall_forall. intros r Hr. apply Hin, Hr.
  - apply firstn_StronglySorted, sort_by_created_sorted.
  - apply firstn_le_length.
  - intros r Hr. apply Hin, Hr.
Qed.

Lemma select_unprocessed_NoDup (tbl : list Entry) :
  List.NoDup (map (@ID Bytes) tbl) ->
  List.NoDup (map (@ID Bytes) (select_unprocessed tbl)).
Proof.
  intros H. unfold select_unprocessed.
  rewrite <- firstn_map. apply NoDup_firstn.
  eapply Permutation_NoDup;
    [symmetry; apply Permutation_map, sort_by_created_Permutation|].
  induction tbl as [|r l IH]; simpl in *; [constructor|].
  apply List.NoDup_cons_iff in H as [Hr Hl].
  destruct (negb (Processed r)); simpl; [|auto].
  constructor; [|auto].
  intros Hin. apply Hr. apply in_map_iff in Hin as (x & Hx & Hin).
  apply in_map_iff. exists x. apply filter_In in Hin. tauto.
Qed.

(** The primary key: an accepted insert keeps the identifiers distinct. *)
Lemma insert_outbox_NoDup (row : Entry) (d d' : DB Bytes) :
  List.NoDup (map (@ID Bytes) (outbox_events d)) ->
  insert_outbox row d = Ok (d', tt) ->
  List.NoDup (map (@ID Bytes) (outbox_events d')).
Proof.
  unfold insert_outbox. intros Hnd.
  destruct (existsb _ _) eqn:Ex; [discriminate|]. intros [= <-]. simpl.
  rewrite map_app. simpl.
  apply List.NoDup_app; [exact Hnd|repeat constructor; intros []|].
  intros a Ha [<-|[]].
  apply in_map_iff in Ha as (x & Hx & Hin).
  assert (existsb (fun r => ID r =s? ID row) (outbox_events d) = true) as Habs;
    [|congruence].
  apply existsb_exists. exists x. split; [exact Hin|].
  rewrite Hx. apply String.eqb_refl.
Qed.

(** The rows after the [UPDATE]s of a list of identifiers. *)
Definition mark_all (ids : list string) (tbl : list Entry) : list Entry :=
  fold_left (fun l id => mark_rows id l) ids tbl.

Definition listed (ids : list string) (r : Entry) : bool :=
  existsb (fun id => ID r =s? id) ids.

Lemma mark_all_map ids (tbl : list Entry) :
  mark_all ids tbl = map (fun r => if listed ids r then set_processed r else r) tbl.
Proof.
  unfold mark_all. revert tbl. induction ids as [|id ids IH]; intros tbl; simpl.
  - symmetry. apply map_id.
  - rewrite IH. unfold mark_rows. rewrite map_map. apply map_ext. intros r.
    destruct (ID r =s? id) eqn:E; simpl; [|reflexivity].
    destruct (listed ids (set_processed r)) eqn:L; [reflexivity|].
    unfold listed in L. simpl in L. reflexivity.
Qed.

Lemma mark_rows_none id (tbl : list Entry) :
  length (List.filter (fun r => ID r =s? id) tbl) = 0%nat -> mark_rows id tbl = tbl.
Proof.
  unfold mark_rows. induction tbl as [|r l IH]; simpl; [reflexivity|].
  destruct (ID r =s? id); simpl; [discriminate|]. intros H. rewrite IH; auto.
Qed.

Lemma mark_all_flags ids (tbl : list Entry) :
  map set_processed (mark_all ids tbl) = map set_processed tbl.
Proof.
  rewrite mark_all_map, map_map. apply map_ext. intros r.
  destruct (listed ids r); reflexivity.
Qed.

Lemma mark_all_In ids (tbl : list Entry) (x' : Entry) :
  In x' (mark_all ids tbl) ->
  In x' tbl \/ exists x, In x tbl /\ In (ID x) ids /\ x' = set_processed x.
Proof.
  rewrite mark_all_map. intros H. apply in_map_iff in H as (x & <- & Hx).
  destruct (listed ids x) eqn:L; [|left; exact Hx].
  right. exists x. split; [exact Hx|]. split; [|reflexivity].
  unfold listed in L. apply existsb_exists in L as (id & Hid & E).
  apply String.eqb_eq in E. rewrite E. exact Hid.
Qed.

Lemma mark_all_untouched ids (tbl : list Entry) (x : Entry) :
  In x tbl -> ~ In (ID x) ids -> In x (mark_all ids tbl).
Proof.
  intros Hx Hn. rewrite mark_all_map. apply in_map_iff. exists x.
  split; [|exact Hx].
  destruct (listed ids x) eqn:L; [|reflexivity].
  exfalso. apply Hn. unfold listed in L.
  apply existsb_exists in L as (id & Hid & E).
  apply String.eqb_eq in E. rewrite E. exact Hid.
Qed.

(** An unprocessed entry of the batch that no [UPDATE] named is fetched
    again by the next query. *)
Lemma select_unprocessed_again ids (tbl : list Entry) (x : Entry) :
  In x (select_unprocessed tbl) -> ~ In (ID x) ids ->
  In x (select_unprocessed (mark_all ids tbl)).
Proof.
  intros Hx Hn. unfold select_unprocessed in *.
  assert (List.filter (fun r => negb (Processed r)) (mark_all ids tbl)
          = List.filter (fun r => negb (listed ids r))
              (List.filter (fun r => negb (Processed r)) tbl)) as ->.
  { clear Hx. rewrite <- filter_andb, mark_all_map.
    induction tbl as [|r l IH]; simpl; [reflexivity|].
    destruct (listed ids r); simpl; [rewrite andb_false_r; exact IH|].
    rewrite andb_true_r. destruct (negb (Processed r)); rewrite IH; reflexivity. }
  rewrite sort_by_created_filter.
  apply firstn_filter_In; [exact Hx|].
  destruct (listed ids x) eqn:L; [|reflexivity].
  exfalso. apply Hn. unfold listed in L.
  apply existsb_exists in L as (id & Hid & E).
  apply String.eqb_eq in E. rewrite E. exact Hid.
Qed.

End Outbox.

Section Publisher.
Context {Bytes : Type} (codec : Codec Bytes) (env : Oracle).
Abbreviation Entry' := (OutboxEvent Bytes).

Definition with_outbox (d : DB Bytes) (tbl : list Entry') : DB Bytes :=
  mkDB (orders d) (order_items d) (events_tbl d) tbl.

Lemma with_outbox_same (d : DB Bytes) : with_outbox d (outbox_events d) = d.
Proof. destruct d. reflexivity. Qed.

(** The identifiers whose [UPDATE] went through, from the trace. *)
Definition marked (trace : list (string * Attempt)) : list string :=
  map fst (List.filter (fun p => match snd p with
                                 | Delivered None => true
                                 | _ => false
                                 end) trace).

(** The message [processEvent] publishes for an entry, if it parses. *)
Definition message_of (e : Entry') : list (eventbus.Message Bytes) :=
  match parseEvent codec (EventType e) (EventData e) with
  | Ok event => [eventbus.Publish_message codec event]
  | Err _ => []
  end.

(** The messages of the entries the trace reports as delivered. *)
Fixpoint delivered (batch : list Entry') (trace : list (string * Attempt))
  : list (eventbus.Message Bytes) :=
  match batch, trace with
  | e :: batch', (_, Delivered _) :: trace' => message_of e ++ delivered batch' trace'
  | e :: batch', (_, NotDelivered _) :: trace' => delivered batch' trace'
  | _, _ => []
  end.

(** [processEvent] never writes to the database; it returns no error
    exactly when Kafka acknowledged the message of the entry, which is
    then the last message of the topic. *)
Lemma processEvent_spec (e : Entry') (w : World Bytes) :
  let r := processEvent codec env e w in
  db (fst r) = db w /\
  ((snd r = Ok tt /\ bus (fst r) = bus w ++ message_of e /\
    exists m, message_of e = [m]) \/
   ((exists msg, snd r = Err msg) /\ bus (fst r) = bus w)).
Proof.
  simpl. unfold processEvent, message_of.
  destruct (parseEvent codec (EventType e) (EventData e)) as [event|msg].
  - unfold EventBus_Publish, eventbus.Publish.
    destruct (kafka_at env (tick w)); simpl; split; try reflexivity;
      solve [ left; split; [reflexivity|split; [reflexivity|eauto]]
            | right; split; [eauto|reflexivity] ].
  - simpl. split; [reflexivity|]. right. split; [eauto|reflexivity].
Qed.

(** [MarkAsProcessed] flags the rows of the identifier, or fails and
    changes nothing; it never touches the bus. *)
Lemma MarkAsProcessed_spec id (w : World Bytes) :
  let r := MarkAsProcessed env id w in
  bus (fst r) = bus w /\
  ((snd r = Ok tt /\
    db (fst r) = with_outbox (db w) (mark_rows id (outbox_events (db w)))) \/
   ((exists msg, snd r = Err msg) /\ db (fst r) = db w)).
Proof.
  simpl. unfold MarkAsProcessed, bind, wrapping, ExecContext.
  destruct (faults env (tick w)); simpl.
  - split; [reflexivity|]. right. split; [eauto|reflexivity].
  - destruct (Nat.eqb _ 0) eqn:E; simpl.
    + split; [reflexivity|]. right. split; [eauto|].
      apply Nat.eqb_eq in E. rewrite (mark_rows_none _ _ E).
      apply with_outbox_same.
    + split; [reflexivity|]. left. split; reflexivity.
Qed.

(** The loop of [processBatch]: one attempt per entry, in order; the
    rows flagged are those of the identifiers whose [UPDATE] went
    through; the topic grows by the messages delivered. *)
Lemma delivered_cons_In (e : Entry') (rest : list Entry') p
      (trace : list (string * Attempt)) m :
  In m (delivered rest trace) -> In m (delivered (e :: rest) (p :: trace)).
Proof.
  intros H. destruct p as [id [msg|err]]; simpl; [exact H|].
  apply in_or_app. right. exact H.
Qed.

Lemma drain_spec (batch : list Entry') (w : World Bytes) :
  let r := drain codec env batch w in
  map fst (snd r) = map (@ID Bytes) batch /\
  db (fst r) = with_outbox (db w) (mark_all (marked (snd r)) (outbox_events (db w))) /\
  bus (fst r) = bus w ++ delivered batch (snd r) /\
  (List.NoDup (map (@ID Bytes) batch) ->
   forall e a, In e batch -> In (ID e, Delivered a) (snd r) ->
               exists m, message_of e = [m] /\ In m (delivered batch (snd r))).
Proof.
  simpl. revert w. induction batch as [|e rest IH]; intros w; simpl.
  - split; [reflexivity|]. split; [symmetry; apply with_outbox_same|].
    split; [symmetry; apply app_nil_r|]. intros _ e a [].
  - pose proof (processEvent_spec e w) as (Hdb & Hp). simpl in Hdb, Hp.
    assert (forall (w2 : World Bytes) att,
               (forall a, att = Delivered a -> exists m, message_of e = [m]) ->
               let r := drain codec env rest w2 in
               List.NoDup (ID e :: map (@ID Bytes) rest) ->
               forall e0 a, e = e0 \/ In e0 rest ->
                 (ID e, att) = (ID e0, Delivered a) \/ In (ID e0, Delivered a) (snd r) ->
                 exists m, message_of e0 = [m] /\
                           In m (delivered (e :: rest) ((ID e, att) :: snd r))) as Hfind.
    { intros w2 att Hatt r Hnd e0 a He0 Hin.
      apply List.NoDup_cons_iff in Hnd as [Hfresh Hnd].
      destruct (IH w2) as (Ht & _ & _ & Hrest). fold r in Ht, Hrest.
      assert (forall (x : Entry') (b : Attempt),
                 In (ID x, b) (snd r) -> In (ID x) (map (@ID Bytes) rest)) as Hids.
      { intros x b Hx. rewrite <- Ht. apply (in_map fst) in Hx. exact Hx. }
      destruct He0 as [<-|He0], Hin as [E|Hin].
      - injection E as ->. destruct (Hatt a eq_refl) as [m Hm].
        exists m. split; [exact Hm|]. simpl. rewrite Hm. left. reflexivity.
      - exfalso. apply Hfresh. eapply Hids, Hin.
      - exfalso. apply Hfresh. injection E as -> _. apply in_map, He0.
      - destruct (Hrest Hnd e0 a He0 Hin) as (m & Hm & Hd).
        exists m. split; [exact Hm|]. apply delivered_cons_In, Hd. }
    destruct (processEvent codec env e w) as [w1 [[]|msg]]; simpl in Hdb, Hp.
    + destruct Hp as [(_ & Hbus & Hmsg)|[[msg Hm] _]]; [|discriminate].
      pose proof (MarkAsProcessed_spec (ID e) w1) as (Hb2 & Hm). simpl in Hb2, Hm.
      destruct (MarkAsProcessed env (ID e) w1) as [w2 [[]|msg]]; simpl in Hb2, Hm.
      * destruct Hm as [[_ Hm]|[[msg Hx] _]]; [|discriminate].
        specialize (Hfind w2 (Delivered None) (fun _ _ => Hmsg)).
        specialize (IH w2). destruct (drain codec env rest w2) as [w3 trace].
        simpl in IH, Hfind |- *. destruct IH as (Ht & Hd & Hb & _).
        split; [f_equal; exact Ht|]. split; [|split].
        -- rewrite Hd, Hm, Hdb. reflexivity.
        -- rewrite Hb, Hb2, Hbus, <- app_assoc. reflexivity.
        -- exact Hfind.
      * destruct Hm as [[Hx _]|[_ Hm]]; [discriminate|].
        specialize (Hfind w2 (Delivered (Some msg)) (fun _ _ => Hmsg)).
        specialize (IH w2). destruct (drain codec env rest w2) as [w3 trace].
        simpl in IH, Hfind |- *. destruct IH as (Ht & Hd & Hb & _).
        split; [f_equal; exact Ht|]. split; [|split].
        -- rewrite Hd, Hm, Hdb. reflexivity.
        -- rewrite Hb, Hb2, Hbus, <- app_assoc. reflexivity.
        -- exact Hfind.
    + destruct Hp as [(Hx & _)|[_ Hbus]]; [discriminate|].
      assert (forall a, NotDelivered msg = Delivered a -> exists m, message_of e = [m])
        as Hno by discriminate.
      specialize (Hfind w1 (NotDelivered msg) Hno).
      specialize (IH w1). destruct (drain codec env rest w1) as [w2 trace].
      simpl in IH, Hfind |- *. destruct IH as (Ht & Hd & Hb & _).
      split; [f_equal; exact Ht|]. split; [|split].
      * rewrite Hd, Hdb. reflexivity.
      * rewrite Hb, Hbus. reflexivity.
      * exact Hfind.
Qed.

Lemma marked_In id (trace : list (string * Attempt)) :
  In id (marked trace) <-> In (id, Delivered None) trace.
Proof.
  unfold marked. rewrite in_map_iff. split.
  - intros ([id' a] & <- & H). apply filter_In in H as [H Ha]. simpl in *.
    destruct a as [msg|[msg|]]; try discriminate. exact H.
  - intros H. exists (id, Delivered None). split; [reflexivity|].
    apply filter_In. split; [exact H|reflexivity].
Qed.

Lemma trace_functional (trace : list (string * Attempt)) id a b :
  List.NoDup (map fst trace) -> In (id, a) trace -> In (id, b) trace -> a = b.
Proof.
  intros Hnd Ha Hb.
  assert ((id, a) = (id, b)) as E by (eapply NoDup_map_eq; eauto).
  congruence.
Qed.

(** [processBatch] is its traced version without the trace: the same world,
    and an error only when the query of the batch is refused. *)
Lemma processBatch_traced_world (w : World Bytes) :
  fst (processBatch codec env w) = fst (processBatch_traced codec env w) /\
  (faults env (tick w) = false ->
   snd (processBatch codec env w) = Ok tt /\
   exists batch trace, snd (processBatch_traced codec env w) = Ok (batch, trace)).
Proof.
  unfold processBatch, bind.
  destruct (processBatch_traced codec env w) as [w1 [[batch trace]|msg]] eqn:E;
    simpl; (split; [reflexivity|]); intros Hf.
  - split; [reflexivity|]. eauto.
  - exfalso. revert E.
    unfold processBatch_traced, bind, GetUnprocessedEvents, wrapping, QueryContext.
    rewrite Hf.
    destruct (Nat.eqb _ 0); [discriminate|].
    destruct (drain codec env _ (bump w)); discriminate.
Qed.

(** C6. One cycle of the publisher on an outbox whose identifiers are
    distinct (the primary key). The batch is what the query selects:
    unprocessed entries of the outbox, by creation time, one hundred at
    most, each attempted once and in order. An entry that is processed
    after the cycle was so before, or is an entry of the batch whose
    delivery was acknowledged before its flag was set. An entry of the
    batch whose delivery failed is left as it was, unprocessed, and the
    next query fetches it again. No row of the outbox is added or
    lost, only flags change; the topic grows by the delivered messages. *)
Theorem publisher_drain_cycle (w w' : World Bytes) (batch : list Entry')
        (trace : list (string * Attempt)) :
  List.NoDup (map (@ID Bytes) (outbox_events (db w))) ->
  processBatch_traced codec env w = (w', Ok (batch, trace)) ->
  (Forall (fun r => Processed r = false) batch /\
   StronglySorted older batch /\
   (length batch <= 100)%nat /\
   (forall r, In r batch -> In r (outbox_events (db w))) /\
   map fst trace = map (@ID Bytes) batch) /\
  (forall r', In r' (outbox_events (db w')) -> Processed r' = true ->
     In r' (outbox_events (db w)) \/
     exists r, In r batch /\ r' = set_processed r /\
               In (ID r, Delivered None) trace /\
               exists m, message_of r = [m] /\ In m (delivered batch trace)) /\
  (forall r msg, In r batch -> In (ID r, NotDelivered msg) trace ->
     In r (outbox_events (db w')) /\
     In r (select_unprocessed (outbox_events (db w')))) /\
  map set_processed (outbox_events (db w')) =
    map set_processed (outbox_events (db w)) /\
  bus w' = bus w ++ delivered batch trace.
Proof.
  intros Hnd Hrun.
  unfold processBatch_traced, bind, GetUnprocessedEvents, wrapping, QueryContext in Hrun.
  destruct (faults env (tick w)); [discriminate|].
  set (tbl := outbox_events (db w)) in *.
  pose proof (select_unprocessed_spec tbl) as (Hun & Hsorted & Hlen & Hsub).
  pose proof (select_unprocessed_NoDup tbl Hnd) as Hbnd.
  destruct (Nat.eqb (length (select_unprocessed tbl)) 0) eqn:Hempty.
  - injection Hrun as <- <- <-. simpl. fold tbl.
    split; [repeat split; try constructor; [lia|intros r []]|].
    split; [intros r' Hr' _; left; exact Hr'|].
    split; [intros r msg []|].
    split; [reflexivity|]. symmetry. apply app_nil_r.
  - pose proof (drain_spec (select_unprocessed tbl) (bump w)) as Hd. simpl in Hd.
    destruct (drain codec env (select_unprocessed tbl) (bump w)) as [w1 trace1].
    injection Hrun as <- <- <-. simpl in Hd.
    destruct Hd as (Htrace & Hdb & Hbus & Hmsg). fold tbl in Hdb.
    assert (outbox_events (db w1) = mark_all (marked trace1) tbl) as Hout
        by (rewrite Hdb; reflexivity).
    split; [repeat split; assumption|].
    split; [|split; [|split]].
    + intros r' Hr' _. rewrite Hout in Hr'.
      apply mark_all_In in Hr' as [Hr'|(r & Hr & Hid & ->)]; [left; exact Hr'|].
      right. apply marked_In in Hid.
      assert (In r (select_unprocessed tbl)) as Hb.
      { assert (In (ID r) (map (@ID Bytes) (select_unprocessed tbl))) as Hi
            by (rewrite <- Htrace; apply (in_map fst) in Hid; exact Hid).
        apply in_map_iff in Hi as (y & Hy & Hyb).
        assert (y = r) as <-; [|exact Hyb].
        apply (NoDup_map_eq (@ID Bytes) tbl y r Hnd (Hsub y Hyb) Hr Hy). }
      exists r. split; [exact Hb|]. split; [reflexivity|]. split; [exact Hid|].
      apply (Hmsg Hbnd r None Hb Hid).
    + intros r msg Hr Hfail.
      assert (~ In (ID r) (marked trace1)) as Hno.
      { intros Hm. apply marked_In in Hm.
        assert (List.NoDup (map fst trace1)) as Htn by (rewrite Htrace; exact Hbnd).
        pose proof (trace_functional _ _ _ _ Htn Hm Hfail). discriminate. }
      rewrite Hout. split.
      * apply mark_all_untouched; auto.
      * apply select_unprocessed_again; assumption.
    + rewrite Hout. apply mark_all_flags.
    + exact Hbus.
Qed.

End Publisher.

End publisher_facts.

(** * Worked scenarios *)

Module scenarios.
Import valueobjects events repositories handlers.
Import entities_facts eventbus_facts handlers_facts publisher_facts.

Definition idOf (n : nat) : string := String.append "id-" (decimal n).

(** An environment in which nothing fails. *)
Definition calm : Oracle :=
  {| faults := fun _ => false;
     uuid_at := idOf;
     now_at := Z.of_nat;
     kafka_at := fun _ => Acked |}.

(** The calm environment, but for the interaction number [k], a statement
    the database refuses. *)
Definition failing_at (k : nat) : Oracle :=
  {| faults := Nat.eqb k;
     uuid_at := idOf;
     now_at := Z.of_nat;
     kafka_at := fun _ => Acked |}.

Definition emptyWorld : World DomainEvent :=
  mkWorld (mkDB ∅ [] [] []) [] 0.

(** The command of the scenario: 1000 x 2 and 500 x 1. *)
Definition twoItems : CreateOrderCommand :=
  mkCreateOrderCommand "c-1"
    [mkOrderItemCommand "p-1" 2 (mkMoney 1000 "USD");
     mkOrderItemCommand "p-2" 1 (mkMoney 500 "USD")]
    sampleAddress.

(** The world after the order of the scenario was created: the order is
    "id-0", a draft with two items, and its Created event waits in the
    outbox. *)
Definition createdWorld : World DomainEvent :=
  fst (CreateOrder idCodec calm twoItems emptyWorld).

Definition createdOrder : entities.Order :=
  entities.mkOrder "id-0" "c-1"
    [entities.mkOrderItem "p-1" 2 (mkMoney 1000 "USD");
     entities.mkOrderItem "p-2" 1 (mkMoney 500 "USD")]
    OrderStatusDraft (mkMoney 2500 "USD") sampleAddress 1 4.

Lemma CreateOrder_scenario :
  CreateOrder idCodec calm twoItems emptyWorld = (createdWorld, Ok createdOrder).
Proof. vm_compute. reflexivity. Qed.

Definition orderStatus (w : World DomainEvent) (id : string) : option string :=
  status <$> orders (db w) !! id.

(** C1. The claim asks for one atomic unit of work. The command service
    runs the save of the aggregate and the insert into the outbox as
    separate statements, each committed on its own (the repository's
    transactional [SaveEventWithTx] is never called). When the insert
    into the outbox is refused, [ConfirmOrder] returns the error and the
    order is nevertheless stored as confirmed, with no event in the
    outbox; likewise [CreateOrder] leaves an order and its row in the
    event store behind, and an empty outbox. *)
Theorem outbox_failure_keeps_aggregate_write :
  (let r := ConfirmOrder idCodec (failing_at 26) "id-0" createdWorld in
   snd r = Err "failed to save event to outbox: failed to save event to outbox: driver: bad connection" /\
   orderStatus createdWorld "id-0" = Some "draft" /\
   orderStatus (fst r) "id-0" = Some "confirmed" /\
   outbox_events (db (fst r)) = outbox_events (db createdWorld)) /\
  (let r := CreateOrder idCodec (failing_at 15) twoItems emptyWorld in
   snd r = Err "failed to save event to outbox: failed to save event to outbox: driver: bad connection" /\
   orderStatus (fst r) "id-0" = Some "draft" /\
   length (events_tbl (db (fst r))) = 1%nat /\
   outbox_events (db (fst r)) = []).
Proof. vm_compute. repeat split. Qed.

Lemma event_store_only_created_witness :
  (CreateOrder idCodec calm twoItems emptyWorld = (createdWorld, Ok createdOrder) /\
   exists row,
     events_tbl (db createdWorld) = events_tbl (db emptyWorld) ++ [row] /\
     aggregate_id row = "id-0" /\ event_type row = "OrderCreated" /\ version row = 1) /\
  (is_create (DoConfirmOrder "id-0") = false /\
   events_tbl (db (fst (run idCodec calm (DoConfirmOrder "id-0") createdWorld)))
   = events_tbl (db createdWorld)) /\
  (only_created (events_tbl (db emptyWorld)) /\
   only_created (events_tbl (db (fst (run idCodec calm (DoCreateOrder twoItems) emptyWorld))))).
Proof.
  destruct (event_store_only_created idCodec calm) as (Hcreate & Hother & Hinv).
  split; [|split].
  - split; [exact CreateOrder_scenario|].
    apply (Hcreate twoItems emptyWorld createdWorld createdOrder CreateOrder_scenario).
  - split; [reflexivity|].
    apply (Hother (DoConfirmOrder "id-0") createdWorld eq_refl).
  - assert (only_created (events_tbl (db emptyWorld))) as H0
        by (split; constructor).
    split; [exact H0|]. apply (Hinv (DoCreateOrder twoItems) emptyWorld H0).
Defined.

(** The world after the order was confirmed too: two entries wait in the
    outbox, "id-13" (Created) and "id-24" (Confirmed). *)
Definition confirmedWorld : World DomainEvent :=
  fst (ConfirmOrder idCodec calm "id-0" createdWorld).

(** Kafka acknowledges the first message and reports an error for every
    other one. *)
Definition flaky (first : nat) : Oracle :=
  {| faults := fun _ => false;
     uuid_at := idOf;
     now_at := Z.of_nat;
     kafka_at := fun n => if Nat.eqb n first then Acked else DeliveryError "broker down" |}.

Definition cycleBatch : list (OutboxEvent DomainEvent) :=
  select_unprocessed (outbox_events (db confirmedWorld)).

Definition cycleTrace : list (string * Attempt) :=
  [("id-13", Delivered None); ("id-24", NotDelivered "delivery failed: broker down")].

Definition afterCycle : World DomainEvent :=
  fst (processBatch_traced idCodec (flaky 28) confirmedWorld).

Lemma cycle_scenario :
  processBatch_traced idCodec (flaky 28) confirmedWorld
  = (afterCycle, Ok (cycleBatch, cycleTrace)).
Proof. vm_compute. reflexivity. Qed.

Lemma confirmedWorld_ids :
  List.NoDup (map (@ID DomainEvent) (outbox_events (db confirmedWorld))).
Proof.
  vm_compute. constructor; [intros [H|[]]; discriminate H|].
  constructor; [intros []|constructor].
Defined.

Lemma publisher_drain_cycle_witness :
  List.NoDup (map (@ID DomainEvent) (outbox_events (db confirmedWorld))) /\
  processBatch_traced idCodec (flaky 28) confirmedWorld
    = (afterCycle, Ok (cycleBatch, cycleTrace)) /\
  map (fun r => (ID r, Processed r)) (outbox_events (db afterCycle))
    = [("id-13", true); ("id-24", false)] /\
  (forall r msg, In r cycleBatch -> In (ID r, NotDelivered msg) cycleTrace ->
     In r (outbox_events (db afterCycle)) /\
     In r (select_unprocessed (outbox_events (db afterCycle)))) /\
  length (bus afterCycle) = 1%nat.
Proof.
  pose proof (publisher_drain_cycle idCodec (flaky 28) confirmedWorld afterCycle
                cycleBatch cycleTrace confirmedWorld_ids cycle_scenario)
    as (_ & _ & Hretry & _ & _).
  split; [exact confirmedWorld_ids|].
  split; [exact cycle_scenario|].
  split; [vm_compute; reflexivity|].
  split; [exact Hretry|].
  vm_compute. reflexivity.
Defined.

(** Duplicates are possible: Kafka acknowledges the message, the [UPDATE]
    of the flag is refused, and the next cycle publishes the same entry
    again. *)
Definition mark_refused : Oracle :=
  {| faults := fun n => Nat.eqb n 18;
     uuid_at := idOf;
     now_at := Z.of_nat;
     kafka_at := fun _ => Acked |}.

Lemma duplicate_publication :
  let w1 := fst (processBatch idCodec mark_refused createdWorld) in
  let w2 := fst (processBatch idCodec mark_refused w1) in
  map (@Processed DomainEvent) (outbox_events (db w1)) = [false] /\
  length (bus w1) = 1%nat /\
  map (@Processed DomainEvent) (outbox_events (db w2)) = [true] /\
  exists m, bus w2 = [m; m].
Proof. vm_compute. repeat split. eexists. reflexivity. Qed.

End scenarios.
